(** * SmartMeal: the recipe service, its sanitizer and its conflict checker

    A shallow embedding of [src/lib/services/ai.service.ts],
    [src/lib/services/recipe.service.ts] and
    [src/lib/validation/recipe.validation.ts], followed by the properties
    the design document states about them.

    Conventions.
    - A JavaScript string is a sequence of UTF-16 code units.  The model
      covers the code units below 256; the code unit [n] is the [ascii]
      whose number is [n].  On that range [trim], [slice], [replace],
      [toLowerCase] and [includes] are modelled exactly.
    - A JavaScript array is a [list]; [undefined] in an optional field is
      [None].
    - [RecipeService.MOCK_RECIPES] and [RecipeService.mockRecipeCounter]
      are static, hence shared by every request: they form the [Store]
      that every operation takes and returns.
    - [new Date().toISOString()] reads the wall clock.  Every read is an
      explicit argument of the operation that performs it, one argument
      per read, in the order of the reads. *)

From Stdlib Require Import Ascii String ZArith QArith Qround Lia.
From stdpp Require Import base option list strings numbers pretty sorting.

Local Close Scope Q_scope.

(** ** JavaScript string primitives *)

Module JsString.

Definition code (c : ascii) : nat := nat_of_ascii c.

Definition inRange (lo hi : nat) (c : ascii) : bool :=
  Nat.leb lo (code c) && Nat.leb (code c) hi.

(** [\w]: ASCII letters, digits and the underscore. *)
Definition isWord (c : ascii) : bool :=
  inRange 65 90 c || inRange 97 122 c || inRange 48 57 c || Nat.eqb (code c) 95.

(** [\s], which is also what [trim] removes: TAB, LF, VT, FF, CR, SP and
    NBSP are the white space and line terminators below 256. *)
Definition isWhiteSpace (c : ascii) : bool :=
  inRange 9 13 c || Nat.eqb (code c) 32 || Nat.eqb (code c) 160.

Definition isEmpty (s : string) : bool :=
  match s with EmptyString => true | String _ _ => false end.

Fixpoint trimStart (s : string) : string :=
  match s with
  | EmptyString => EmptyString
  | String c s' => if isWhiteSpace c then trimStart s' else s
  end.

Fixpoint trimEnd (s : string) : string :=
  match s with
  | EmptyString => EmptyString
  | String c s' =>
      let t := trimEnd s' in
      if isWhiteSpace c && isEmpty t then EmptyString else String c t
  end.

(** [s.trim()] *)
Definition trim (s : string) : string := trimEnd (trimStart s).

(** [s.slice(0, n)] for a non-negative [n]. *)
Fixpoint slice0 (n : nat) (s : string) : string :=
  match n, s with
  | S n', String c s' => String c (slice0 n' s')
  | _, _ => EmptyString
  end.

(** [s.replace(/[^...]/g, "")] for a character class given by [keep]. *)
Fixpoint removeUnless (keep : ascii -> bool) (s : string) : string :=
  match s with
  | EmptyString => EmptyString
  | String c s' =>
      if keep c then String c (removeUnless keep s') else removeUnless keep s'
  end.

(** Lower-casing of one code unit: A-Z, and the Latin-1 capitals
    U+00C0..U+00DE without the multiplication sign U+00D7. *)
Definition lowerChar (c : ascii) : ascii :=
  if inRange 65 90 c || (inRange 192 222 c && negb (Nat.eqb (code c) 215))
  then ascii_of_nat (code c + 32) else c.

Fixpoint toLowerCase (s : string) : string :=
  match s with
  | EmptyString => EmptyString
  | String c s' => String (lowerChar c) (toLowerCase s')
  end.

Fixpoint startsWith (s sub : string) {struct sub} : bool :=
  match sub, s with
  | EmptyString, _ => true
  | String b sub', String a s' => Ascii.eqb a b && startsWith s' sub'
  | String _ _, EmptyString => false
  end.

(** [s.includes(sub)] *)
Fixpoint includes (s sub : string) : bool :=
  startsWith s sub ||
  match s with
  | EmptyString => false
  | String _ s' => includes s' sub
  end.

(** [parts.join(sep)] *)
Fixpoint join (sep : string) (parts : list string) : string :=
  match parts with
  | [] => ""
  | [p] => p
  | p :: rest => p +:+ sep +:+ join sep rest
  end.

(** Every code unit of [s] satisfies [p]. *)
Fixpoint allChars (p : ascii -> bool) (s : string) : bool :=
  match s with
  | EmptyString => true
  | String c s' => p c && allChars p s'
  end.

End JsString.

(** ** Data transfer objects ([src/types.ts]) *)

Inductive RecipeSource : Set := ai | manual.

#[global] Instance RecipeSource_eq_dec : EqDecision RecipeSource.
Proof. solve_decision. Defined.

Record GeneratedRecipeDTO := {
  g_title : string;
  g_ingredients : list string;
  g_preparation_steps : list string
}.

Record IngredientWarning := {
  w_type : string;
  w_message : string;
  w_ingredient : string
}.

Record GenerateRecipeResponseDTO := {
  recipe : GeneratedRecipeDTO;
  warnings : list IngredientWarning
}.

(** The row of the [profiles] table as the checker uses it; the column is
    nullable in the schema, and the checker guards against that. *)
Record ProfileDTO := {
  p_user_id : string;
  ingredients_to_avoid : option (list string)
}.

(** ** The generation adapter ([ai.service.ts]) *)

Module AIService.
Import JsString.

(** The class [[^\w\s,.-]] removes what [allowed] rejects. *)
Definition allowed (c : ascii) : bool :=
  isWord c || isWhiteSpace c ||
  Ascii.eqb c "," || Ascii.eqb c "." || Ascii.eqb c "-".

Definition sanitizeIngredient (ingredient : string) : string :=
  removeUnless allowed (slice0 100 (trim ingredient)).

Definition sanitizeIngredients (ingredients : list string) : list string :=
  map sanitizeIngredient ingredients.

(** [AIService.MOCK_RECIPES] *)
Definition MOCK_default : GeneratedRecipeDTO := {|
  g_title := "Delicious Mixed Recipe";
  g_ingredients :=
    [ "2 cups main ingredient";
      "1 cup secondary ingredient";
      "3 tablespoons seasoning";
      "Salt and pepper to taste" ];
  g_preparation_steps :=
    [ "Prepare all ingredients by washing and chopping as needed";
      "Heat a large pan over medium heat";
      "Add the main ingredients and cook for 5-7 minutes";
      "Add secondary ingredients and seasonings";
      "Cook until everything is well combined and heated through";
      "Season with salt and pepper to taste";
      "Serve hot and enjoy!" ]
|}.

Definition MOCK_chicken_rice : GeneratedRecipeDTO := {|
  g_title := "Garlic Chicken with Broccoli Rice";
  g_ingredients :=
    [ "2 chicken breasts, diced";
      "2 cups cooked rice";
      "1 cup broccoli florets";
      "3 cloves garlic, minced";
      "2 tablespoons olive oil";
      "Salt and pepper to taste" ];
  g_preparation_steps :=
    [ "Heat olive oil in a large pan over medium heat";
      "Add minced garlic and cook until fragrant (about 1 minute)";
      "Add diced chicken and cook until golden brown (8-10 minutes)";
      "Add broccoli florets and cook for 5 minutes until tender";
      "Mix in cooked rice and stir well to combine";
      "Season with salt and pepper to taste";
      "Serve hot and garnish with fresh herbs if desired" ]
|}.

(** The e with acute accent of the second step is the code unit 233. *)
Definition MOCK_pasta : GeneratedRecipeDTO := {|
  g_title := "Creamy Tomato Pasta";
  g_ingredients :=
    [ "500g pasta of choice";
      "2 cups tomato sauce";
      "1 cup heavy cream";
      "3 cloves garlic, minced";
      "Fresh basil leaves";
      "Parmesan cheese for serving" ];
  g_preparation_steps :=
    [ "Boil pasta according to package instructions until al dente";
      "While pasta cooks, saut" +:+ String "233"%char " garlic in a large pan";
      "Add tomato sauce and simmer for 5 minutes";
      "Stir in heavy cream and cook for 2-3 minutes";
      "Drain pasta and add to the sauce";
      "Toss everything together until well coated";
      "Serve with fresh basil and parmesan cheese" ]
|}.

(** [`${ingredients[0]}`]: an absent element prints as "undefined". *)
Definition first_or_undefined (ingredients : list string) : string :=
  match ingredients with
  | [] => "undefined"
  | i :: _ => i
  end.

(** [generateRecipe], the development stand-in for the remote model:
    it selects a canned recipe from the joined, lower-cased request. *)
Definition generateRecipe (ingredients : list string) : GeneratedRecipeDTO :=
  let ingredientString := toLowerCase (join " " ingredients) in
  if includes ingredientString "chicken" && includes ingredientString "rice"
  then MOCK_chicken_rice
  else if includes ingredientString "pasta"
  then MOCK_pasta
  else {| g_title := "Delicious " +:+ first_or_undefined ingredients +:+ " Recipe";
          g_ingredients := g_ingredients MOCK_default;
          g_preparation_steps := g_preparation_steps MOCK_default |}.

End AIService.

(** ** Request flows

    A request of the generate endpoint suspends at two boundaries: the
    call of the generation adapter and the query of the [profiles] table.
    A [Flow] lists these interactions in order; what the collaborators
    answer is supplied by [run]. *)

Inductive Flow (R : Type) : Type :=
| Return (r : R)
| CallGenerate (ingredients : list string) (k : GeneratedRecipeDTO -> Flow R)
| SelectProfile (userId : string) (k : option ProfileDTO -> Flow R).

Arguments Return {R} r.
Arguments CallGenerate {R} ingredients k.
Arguments SelectProfile {R} userId k.

(** The collaborators.  [None] from the adapter is a rejected promise: the
    flow logs and rethrows, so the request fails as a whole.  The profile
    query answers the row or nothing; its error object is only logged. *)
Record Collaborators := {
  adapter : list string -> option GeneratedRecipeDTO;
  profiles : string -> option ProfileDTO
}.

Fixpoint run {R} (env : Collaborators) (f : Flow R) : option R :=
  match f with
  | Return r => Some r
  | CallGenerate ingredients k =>
      match adapter env ingredients with
      | Some g => run env (k g)
      | None => None
      end
  | SelectProfile userId k => run env (k (profiles env userId))
  end.

(** The requests sent to the generation adapter during a run, in order. *)
Fixpoint dispatched {R} (env : Collaborators) (f : Flow R) : list (list string) :=
  match f with
  | Return _ => []
  | CallGenerate ingredients k =>
      ingredients ::
      match adapter env ingredients with
      | Some g => dispatched env (k g)
      | None => []
      end
  | SelectProfile userId k => dispatched env (k (profiles env userId))
  end.

(** ** The recipe service ([recipe.service.ts]) *)

Module RecipeService.
Import JsString.

Definition warn (avoidIngredient : string) : IngredientWarning := {|
  w_type := "ingredient_to_avoid";
  w_message := "This recipe contains '" +:+ avoidIngredient +:+
               "' which is in your ingredients to avoid list";
  w_ingredient := avoidIngredient
|}.

(** The inner loop: the first avoided term the line contains, if any
    (the loop breaks there). *)
Fixpoint firstAvoided (ingredientLower : string) (ingredientsToAvoid : list string)
  : option string :=
  match ingredientsToAvoid with
  | [] => None
  | avoidIngredient :: rest =>
      if includes ingredientLower avoidIngredient
      then Some avoidIngredient
      else firstAvoided ingredientLower rest
  end.

(** The outer loop, pushing onto [warnings] in iteration order. *)
Fixpoint scanIngredients (recipeIngredients ingredientsToAvoid : list string)
  : list IngredientWarning :=
  match recipeIngredients with
  | [] => []
  | ingredient :: rest =>
      match firstAvoided (toLowerCase ingredient) ingredientsToAvoid with
      | Some avoidIngredient =>
          warn avoidIngredient :: scanIngredients rest ingredientsToAvoid
      | None => scanIngredients rest ingredientsToAvoid
      end
  end.

Definition checkIngredientsAgainstProfile
    (recipeIngredients : list string) (profile : ProfileDTO)
  : list IngredientWarning :=
  match ingredients_to_avoid profile with
  | None | Some [] => []
  | Some avoid => scanIngredients recipeIngredients (map toLowerCase avoid)
  end.

(** [generateRecipeWithWarnings], with the profile lookup. *)
Definition generateRecipeWithWarnings (ingredients : list string) (userId : string)
  : Flow GenerateRecipeResponseDTO :=
  let sanitizedIngredients := AIService.sanitizeIngredients ingredients in
  CallGenerate sanitizedIngredients (fun recipe =>
  SelectProfile userId (fun profile =>
  let warnings :=
    match profile with
    | Some profile => checkIngredientsAgainstProfile (g_ingredients recipe) profile
    | None => []
    end in
  Return {| recipe := recipe; warnings := warnings |})).

(** [generateRecipeWithWarnings] of the revision that works on mock data:
    no profile is read and no warning is computed. *)
Definition generateRecipeWithWarnings_mock (ingredients : list string) (userId : string)
  : Flow GenerateRecipeResponseDTO :=
  let sanitizedIngredients := AIService.sanitizeIngredients ingredients in
  CallGenerate sanitizedIngredients (fun recipe =>
  Return {| recipe := recipe; warnings := [] |}).

(** *** The in-memory recipe collection

    The fields of [RecipeDTO] and of the commands carry a prefix, the
    plain names ([id], [title], [source], ...) being taken. *)

Record RecipeDTO := {
  r_id : string;
  r_user_id : string;
  r_title : string;
  r_ingredients : list string;
  r_preparation_steps : list string;
  r_source : RecipeSource;
  r_created_at : string;
  r_updated_at : string
}.

Record CreateRecipeCommand := {
  c_title : string;
  c_ingredients : list string;
  c_preparation_steps : list string;
  c_source : RecipeSource
}.

Record UpdateRecipeCommand := {
  u_title : option string;
  u_ingredients : option (list string);
  u_preparation_steps : option (list string)
}.

Inductive SortOrder : Set := asc | desc.

Record RecipeQueryParams := {
  page : option Z;
  limit : option Z;
  sort : option string;
  order : option SortOrder;
  source : option RecipeSource
}.

Record PaginationDTO := {
  pg_page : Z;
  pg_limit : Z;
  total_items : Z;
  total_pages : Z;
  has_next : bool;
  has_previous : bool
}.

Record RecipeListResponseDTO := {
  recipes : list RecipeDTO;
  pagination : PaginationDTO
}.

(** The two static members of the class. *)
Record Store := {
  MOCK_RECIPES : list RecipeDTO;
  mockRecipeCounter : nat
}.

(** [`550e8400-e29b-41d4-a716-44665544000${counter}`] *)
Definition mockId (counter : nat) : string :=
  "550e8400-e29b-41d4-a716-44665544000" +:+ pretty counter.

#[global] Arguments mockId : simpl never.

(** [r.id === id && r.user_id === userId] *)
Definition matches (id userId : string) (r : RecipeDTO) : Prop :=
  r_id r = id ∧ r_user_id r = userId.

#[global] Instance matches_dec id userId r : Decision (matches id userId r).
Proof. unfold matches. apply _. Defined.

(** The property [a[sort]] when it is a string: the two arrays and
    every other property name fail the [typeof] test of the comparator. *)
Definition stringProperty (r : RecipeDTO) (name : string) : option string :=
  if decide (name = "id") then Some (r_id r)
  else if decide (name = "user_id") then Some (r_user_id r)
  else if decide (name = "title") then Some (r_title r)
  else if decide (name = "source")
       then Some (match r_source r with ai => "ai" | manual => "manual" end)
  else if decide (name = "created_at") then Some (r_created_at r)
  else if decide (name = "updated_at") then Some (r_updated_at r)
  else None.

(** [Array.prototype.sort] is stable; with the comparator [cmp], [x]
    moves behind [y] when [cmp x y > 0]. *)
Fixpoint insertBy {A} (cmp : A -> A -> Z) (x : A) (l : list A) : list A :=
  match l with
  | [] => [x]
  | y :: l' => if (0 <? cmp x y)%Z then y :: insertBy cmp x l' else x :: l
  end.

Definition sortBy {A} (cmp : A -> A -> Z) (l : list A) : list A :=
  foldr (insertBy cmp) [] l.

(** [l.slice(start, end)], negative positions counting from the end. *)
Definition slice {A} (l : list A) (start stop : Z) : list A :=
  let len := Z.of_nat (length l) in
  let k := if (start <? 0)%Z then Z.max (len + start) 0 else Z.min start len in
  let final := if (stop <? 0)%Z then Z.max (len + stop) 0 else Z.min stop len in
  take (Z.to_nat (final - k)) (drop (Z.to_nat k) l).

(** [Math.ceil(a / b)] on integers, for [b] other than zero (the
    validated [limit] is at least 1). *)
Definition ceilDiv (a b : Z) : Z := (- ((- a) / b))%Z.

Section Mock.

(** [DEFAULT_USER_ID] is imported from [db/supabase.client], and
    [String.prototype.localeCompare] is the collation of the runtime:
    both are parameters. *)
Variable DEFAULT_USER_ID : string.
Variable localeCompare : string -> string -> Z.

Definition initialRecipes : list RecipeDTO := [
  {| r_id := "550e8400-e29b-41d4-a716-446655440001";
     r_user_id := DEFAULT_USER_ID;
     r_title := "Classic Spaghetti Carbonara";
     r_ingredients :=
       [ "400g spaghetti";
         "200g pancetta or guanciale";
         "4 large eggs";
         "100g Pecorino Romano cheese, grated";
         "Black pepper to taste";
         "Salt for pasta water" ];
     r_preparation_steps :=
       [ "Bring a large pot of salted water to boil and cook spaghetti according to package directions";
         "While pasta cooks, cut pancetta into small cubes and fry in a large pan until crispy";
         "In a bowl, whisk together eggs and grated Pecorino Romano cheese";
         "Reserve 1 cup of pasta water, then drain the spaghetti";
         "Remove pan from heat and add hot pasta to the pancetta";
         "Quickly mix in the egg mixture, adding pasta water as needed to create a creamy sauce";
         "Season generously with black pepper and serve immediately" ];
     r_source := ai;
     r_created_at := "2024-10-01T10:00:00Z";
     r_updated_at := "2024-10-01T10:00:00Z" |};
  {| r_id := "550e8400-e29b-41d4-a716-446655440002";
     r_user_id := DEFAULT_USER_ID;
     r_title := "Grilled Chicken Salad";
     r_ingredients :=
       [ "2 chicken breasts";
         "Mixed salad greens (200g)";
         "1 cucumber, sliced";
         "2 tomatoes, diced";
         "1/4 red onion, thinly sliced";
         "Olive oil";
         "Lemon juice";
         "Salt and pepper" ];
     r_preparation_steps :=
       [ "Season chicken breasts with salt, pepper, and olive oil";
         "Grill chicken for 6-7 minutes per side until fully cooked";
         "Let chicken rest for 5 minutes, then slice into strips";
         "In a large bowl, combine salad greens, cucumber, tomatoes, and red onion";
         "Top with sliced chicken";
         "Drizzle with olive oil and lemon juice";
         "Toss gently and serve immediately" ];
     r_source := manual;
     r_created_at := "2024-10-05T14:30:00Z";
     r_updated_at := "2024-10-05T14:30:00Z" |};
  {| r_id := "550e8400-e29b-41d4-a716-446655440003";
     r_user_id := DEFAULT_USER_ID;
     r_title := "Vegetable Stir Fry";
     r_ingredients :=
       [ "2 cups broccoli florets";
         "1 red bell pepper, sliced";
         "1 yellow bell pepper, sliced";
         "1 cup snap peas";
         "2 carrots, julienned";
         "3 tablespoons soy sauce";
         "2 tablespoons sesame oil";
         "2 cloves garlic, minced";
         "1 tablespoon ginger, minced";
         "Sesame seeds for garnish" ];
     r_preparation_steps :=
       [ "Heat sesame oil in a large wok or skillet over high heat";
         "Add garlic and ginger, stir fry for 30 seconds until fragrant";
         "Add carrots and broccoli, stir fry for 3 minutes";
         "Add bell peppers and snap peas, continue stir frying for 2-3 minutes";
         "Pour in soy sauce and toss everything together";
         "Cook for another minute until vegetables are tender-crisp";
         "Garnish with sesame seeds and serve hot over rice" ];
     r_source := ai;
     r_created_at := "2024-10-08T09:15:00Z";
     r_updated_at := "2024-10-08T09:15:00Z" |} ].

(** The state of the class when the module is loaded. *)
Definition initialStore : Store :=
  {| MOCK_RECIPES := initialRecipes; mockRecipeCounter := 4 |}.

(** [createRecipe]; [createdNow] and [updatedNow] are the two clock
    reads of the object literal, in that order. *)
Definition createRecipe (command : CreateRecipeCommand) (userId : string)
    (createdNow updatedNow : string) (st : Store) : RecipeDTO * Store :=
  let newRecipe := {|
    r_id := mockId (mockRecipeCounter st);
    r_user_id := userId;
    r_title := c_title command;
    r_ingredients := c_ingredients command;
    r_preparation_steps := c_preparation_steps command;
    r_source := c_source command;
    r_created_at := createdNow;
    r_updated_at := updatedNow |} in
  (newRecipe,
   {| MOCK_RECIPES := MOCK_RECIPES st ++ [newRecipe];
      mockRecipeCounter := S (mockRecipeCounter st) |}).

(** [getRecipeById]: [find] answers the first match, [None] is [null]. *)
Definition getRecipeById (id userId : string) (st : Store) : option RecipeDTO :=
  snd <$> list_find (matches id userId) (MOCK_RECIPES st).

(** The object spread of [updateRecipe]. *)
Definition applyUpdate (old : RecipeDTO) (command : UpdateRecipeCommand)
    (now : string) : RecipeDTO := {|
  r_id := r_id old;
  r_user_id := r_user_id old;
  r_title := default (r_title old) (u_title command);
  r_ingredients := default (r_ingredients old) (u_ingredients command);
  r_preparation_steps :=
    default (r_preparation_steps old) (u_preparation_steps command);
  r_source := r_source old;
  r_created_at := r_created_at old;
  r_updated_at := now |}.

(** [updateRecipe]; [now] is the clock read of the found branch. *)
Definition updateRecipe (id userId : string) (command : UpdateRecipeCommand)
    (now : string) (st : Store) : option RecipeDTO * Store :=
  match list_find (matches id userId) (MOCK_RECIPES st) with
  | None => (None, st)
  | Some (recipeIndex, old) =>
      let updatedRecipe := applyUpdate old command now in
      (Some updatedRecipe,
       {| MOCK_RECIPES := <[recipeIndex := updatedRecipe]> (MOCK_RECIPES st);
          mockRecipeCounter := mockRecipeCounter st |})
  end.

(** [deleteRecipe]: [splice(recipeIndex, 1)] on the first match. *)
Definition deleteRecipe (id userId : string) (st : Store) : bool * Store :=
  match list_find (matches id userId) (MOCK_RECIPES st) with
  | None => (false, st)
  | Some (recipeIndex, _) =>
      (true,
       {| MOCK_RECIPES := delete recipeIndex (MOCK_RECIPES st);
          mockRecipeCounter := mockRecipeCounter st |})
  end.

(** The comparator handed to [sort]. *)
Definition compareRecipes (sort : string) (order : SortOrder) (a b : RecipeDTO) : Z :=
  match stringProperty a sort, stringProperty b sort with
  | Some aValue, Some bValue =>
      match order with
      | asc => localeCompare aValue bValue
      | desc => localeCompare bValue aValue
      end
  | _, _ => 0%Z
  end.

(** The user and source filters of [getRecipes]. *)
Definition filterRecipes (userId : string) (source : option RecipeSource)
    (l : list RecipeDTO) : list RecipeDTO :=
  let filteredRecipes := filter (λ r, r_user_id r = userId) l in
  match source with
  | Some source => filter (λ r, r_source r = source) filteredRecipes
  | None => filteredRecipes
  end.

(** [getRecipes].  It works on a filtered copy, so the store is only
    read.  The parameters are integers, as the query schema leaves
    them. *)
Definition getRecipes (userId : string) (params : RecipeQueryParams) (st : Store)
  : RecipeListResponseDTO :=
  let page := default 1%Z (page params) in
  let limit := default 20%Z (limit params) in
  let sort := default "created_at" (sort params) in
  let order := default desc (order params) in
  let filteredRecipes :=
    sortBy (compareRecipes sort order)
           (filterRecipes userId (source params) (MOCK_RECIPES st)) in
  let offset := ((page - 1) * limit)%Z in
  let paginatedRecipes := slice filteredRecipes offset (offset + limit)%Z in
  let totalItems := Z.of_nat (length filteredRecipes) in
  let totalPages := ceilDiv totalItems limit in
  {| recipes := paginatedRecipes;
     pagination := {|
       pg_page := page;
       pg_limit := limit;
       total_items := totalItems;
       total_pages := totalPages;
       has_next := (page <? totalPages)%Z;
       has_previous := (1 <? page)%Z |} |}.

(** One mutating request served by the service. *)
Inductive step : Store -> Store -> Prop :=
| step_create command userId createdNow updatedNow st :
    step st (createRecipe command userId createdNow updatedNow st).2
| step_update id userId command now st :
    step st (updateRecipe id userId command now st).2
| step_delete id userId st :
    step st (deleteRecipe id userId st).2.

(** The stores the running service can be in. *)
Inductive reachable : Store -> Prop :=
| reachable_initial : reachable initialStore
| reachable_step st st' : reachable st -> step st st' -> reachable st'.

End Mock.

End RecipeService.


(** ** The query schema ([recipe.validation.ts]) *)

Module Validation.
Import RecipeService.

(** What [z.coerce.number()] obtains from [Number(input)]: a double,
    which is not-a-number, infinite, or a rational. *)
Inductive JsNumber : Type :=
| NaN
| Infinity (negative : bool)
| Finite (q : Q).

(** The object handed to [safeParse]: [None] is an absent key, the two
    numeric keys are given by the number they coerce to. *)
Record RawQuery := {
  raw_page : option JsNumber;
  raw_limit : option JsNumber;
  raw_sort : option string;
  raw_order : option string;
  raw_source : option string
}.

(** [safeParse] answers the parsed data or the paths of the issues. *)
Inductive SafeParse : Type :=
| Success (data : RecipeQueryParams)
| Failure (issues : list string).

(** [.int()]: [Number.isInteger] *)
Definition asInteger (n : JsNumber) : option Z :=
  match n with
  | Finite q => if Qeq_bool (inject_Z (Qfloor q)) q then Some (Qfloor q) else None
  | _ => None
  end.

(** [z.coerce.number().int().positive().default(1)] *)
Definition parsePage (raw : option JsNumber) : option Z :=
  match raw with
  | None => Some 1%Z
  | Some n =>
      match asInteger n with
      | Some z => if (0 <? z)%Z then Some z else None
      | None => None
      end
  end.

(** [z.coerce.number().int().positive().max(100).default(20)] *)
Definition parseLimit (raw : option JsNumber) : option Z :=
  match raw with
  | None => Some 20%Z
  | Some n =>
      match asInteger n with
      | Some z => if (0 <? z)%Z && (z <=? 100)%Z then Some z else None
      | None => None
      end
  end.

(** [z.string().default("created_at")] *)
Definition parseSort (raw : option string) : option string :=
  Some (default "created_at" raw).

(** [z.enum(["asc", "desc"]).default("desc")] *)
Definition parseOrder (raw : option string) : option SortOrder :=
  match raw with
  | None => Some desc
  | Some o =>
      if decide (o = "asc") then Some asc
      else if decide (o = "desc") then Some desc
      else None
  end.

(** [z.enum(["ai", "manual"]).optional()] *)
Definition parseSource (raw : option string) : option (option RecipeSource) :=
  match raw with
  | None => Some None
  | Some o =>
      if decide (o = "ai") then Some (Some ai)
      else if decide (o = "manual") then Some (Some manual)
      else None
  end.

Definition issue {A} (path : string) (parsed : option A) : list string :=
  match parsed with Some _ => [] | None => [path] end.

Definition recipeQuerySchema (raw : RawQuery) : SafeParse :=
  match parsePage (raw_page raw), parseLimit (raw_limit raw),
        parseSort (raw_sort raw), parseOrder (raw_order raw),
        parseSource (raw_source raw) with
  | Some p, Some l, Some s, Some o, Some src =>
      Success {| page := Some p; limit := Some l; sort := Some s;
                 order := Some o; source := src |}
  | p, l, s, o, src =>
      Failure (issue "page" p ++ issue "limit" l ++ issue "sort" s ++
               issue "order" o ++ issue "source" src)
  end.

(** The list request as the [GET] handler serves it: validate, then
    query; a failure is the 400 response with the issue paths.  The
    handler fills an absent [page], [limit], [sort] or [order] with the
    value the schema defaults to, so an absent key of [raw] stands for an
    absent query parameter. *)
Definition listRecipes (localeCompare : string -> string -> Z)
    (userId : string) (raw : RawQuery) (st : Store)
  : list string + RecipeListResponseDTO :=
  match recipeQuerySchema raw with
  | Failure issues => inl issues
  | Success data => inr (getRecipes localeCompare userId data st)
  end.

End Validation.

(** ** Request bodies and their schemas ([recipe.validation.ts]) *)

Module Schemas.
Import JsString RecipeService.

(** What [request.json()] answers.  The members of an object are listed
    in the order of the text; of two members with one key the later one
    is the property. *)
#[warnings="-register-all"]
Inductive Json : Type :=
| JNull
| JBool (b : bool)
| JNumber (q : Q)
| JString (s : string)
| JArray (items : list Json)
| JObject (members : list (string * Json)).

(** [!value] is [false]. *)
Definition truthy (value : Json) : bool :=
  match value with
  | JNull => false
  | JBool b => b
  | JNumber q => negb (Qeq_bool q 0)
  | JString s => negb (isEmpty s)
  | JArray _ | JObject _ => true
  end.

(** [object[key]]; [None] is [undefined]. *)
Fixpoint member (key : string) (members : list (string * Json)) : option Json :=
  match members with
  | [] => None
  | (k, value) :: rest =>
      match member key rest with
      | Some later => Some later
      | None => if decide (k = key) then Some value else None
      end
  end.

(** The answer of [safeParse]: the parsed data, or the issues, each given
    by its path joined with dots (the root is the empty path). *)
Inductive Parsed (A : Type) : Type :=
| Valid (data : A)
| Invalid (issues : list string).

Arguments Valid {A} data.
Arguments Invalid {A} issues.

Definition issuesOf {A} (parsed : Parsed A) : list string :=
  match parsed with Valid _ => [] | Invalid issues => issues end.

Definition dataOf {A} (parsed : Parsed A) : option A :=
  match parsed with Valid data => Some data | Invalid _ => None end.

(** [z.string().trim().min(1)], with [.max(n)] when [maxLength] is given:
    the checks run in this order, the length ones on the trimmed string. *)
Definition text (maxLength : option nat) (path : string) (value : option Json)
  : Parsed string :=
  match value with
  | Some (JString s) =>
      let trimmed := trim s in
      if isEmpty trimmed then Invalid [path]
      else match maxLength with
           | Some n =>
               if (n <? String.length trimmed)%nat then Invalid [path] else Valid trimmed
           | None => Valid trimmed
           end
  | _ => Invalid [path]
  end.

(** [z.array(z.string().trim().min(1)).min(n)]: the issue of the array
    comes first, then those of the elements under [path.index]. *)
Definition texts (minLength : nat) (path : string) (value : option Json)
  : Parsed (list string) :=
  match value with
  | Some (JArray items) =>
      let parsed :=
        imap (λ i item, text None (path +:+ "." +:+ pretty i) (Some item)) items in
      let issues :=
        (if (length items <? minLength)%nat then [path] else []) ++
        mjoin (issuesOf <$> parsed) in
      match issues with
      | [] => Valid (omap dataOf parsed)
      | _ => Invalid issues
      end
  | _ => Invalid [path]
  end.

(** [z.enum(["ai", "manual"])] *)
Definition sourceTag (path : string) (value : option Json) : Parsed RecipeSource :=
  match value with
  | Some (JString s) =>
      if decide (s = "ai") then Valid ai
      else if decide (s = "manual") then Valid manual
      else Invalid [path]
  | _ => Invalid [path]
  end.

(** [schema.optional()] *)
Definition optional {A} (schema : option Json → Parsed A) (value : option Json)
  : Parsed (option A) :=
  match value with
  | None => Valid None
  | Some _ =>
      match schema value with
      | Valid data => Valid (Some data)
      | Invalid issues => Invalid issues
      end
  end.

(** [generateRecipeSchema]; the data is the [ingredients] array. *)
Definition generateRecipeSchema (body : Json) : Parsed (list string) :=
  match body with
  | JObject members => texts 3 "ingredients" (member "ingredients" members)
  | _ => Invalid [""]
  end.

Definition createRecipeSchema (body : Json) : Parsed CreateRecipeCommand :=
  match body with
  | JObject members =>
      let title := text (Some 255%nat) "title" (member "title" members) in
      let ingredients := texts 1 "ingredients" (member "ingredients" members) in
      let steps := texts 1 "preparation_steps" (member "preparation_steps" members) in
      let source := sourceTag "source" (member "source" members) in
      match title, ingredients, steps, source with
      | Valid t, Valid i, Valid p, Valid s =>
          Valid {| c_title := t; c_ingredients := i; c_preparation_steps := p;
                   c_source := s |}
      | _, _, _, _ =>
          Invalid (issuesOf title ++ issuesOf ingredients ++ issuesOf steps ++
                   issuesOf source)
      end
  | _ => Invalid [""]
  end.

(** [updateRecipeSchema]: the refinement runs on an object whose fields
    parsed, and its issue is at the root. *)
Definition updateRecipeSchema (body : Json) : Parsed UpdateRecipeCommand :=
  match body with
  | JObject members =>
      let title := optional (text (Some 255%nat) "title") (member "title" members) in
      let ingredients :=
        optional (texts 1 "ingredients") (member "ingredients" members) in
      let steps :=
        optional (texts 1 "preparation_steps") (member "preparation_steps" members) in
      match title, ingredients, steps with
      | Valid None, Valid None, Valid None => Invalid [""]
      | Valid t, Valid i, Valid p =>
          Valid {| u_title := t; u_ingredients := i; u_preparation_steps := p |}
      | _, _, _ => Invalid (issuesOf title ++ issuesOf ingredients ++ issuesOf steps)
      end
  | _ => Invalid [""]
  end.

(** The body a client sends to save a recipe. *)
Definition createBody (command : CreateRecipeCommand) : Json :=
  JObject [ ("title", JString (c_title command));
            ("ingredients", JArray (JString <$> c_ingredients command));
            ("preparation_steps", JArray (JString <$> c_preparation_steps command));
            ("source", JString (match c_source command with
                                | ai => "ai" | manual => "manual" end)) ].

End Schemas.

(** ** The route handlers ([pages/api/recipes])

    A handler takes what it reads from the request (the identifier of the
    path, the body, the query) and, when it mutates, the store and the
    clock readings of the service call.  The [catch] blocks answer 500 to
    an exception; the service on mock data raises none, and the one
    failure of the generate flow, a rejected adapter call, is answered
    with 503. *)

Module Routes.
Import JsString RecipeService Validation Schemas.

(** [details] of an error response: a text, or the object keyed by the
    paths of the issues (the messages, which are the validator's, are
    left out). *)
Inductive ErrorDetails : Type :=
| DetailText (text : string)
| DetailFields (paths : list string).

Record ErrorResponseDTO := {
  e_error : string;
  e_message : string;
  e_details : option ErrorDetails
}.

Inductive Payload : Type :=
| RecipePayload (data : RecipeDTO)
| ListPayload (data : RecipeListResponseDTO)
| GeneratedPayload (data : GenerateRecipeResponseDTO)
| SuccessPayload (message : string)
| ErrorPayload (data : ErrorResponseDTO).

Record Response := {
  status : Z;
  payload : Payload
}.

(** [createErrorResponse] ([lib/utils.ts]): falsy details are left out. *)
Definition createErrorResponse (status : Z) (error message : string)
    (details : option ErrorDetails) : Response :=
  {| status := status;
     payload := ErrorPayload
       {| e_error := error; e_message := message;
          e_details := match details with
                       | Some (DetailText "") => None
                       | _ => details
                       end |} |}.

(** [await context.request.json().catch(() => null)] *)
Definition readBody (body : option Json) : Json := default JNull body.

Section Handlers.

(** [DEFAULT_USER_ID] stands for the authenticated user; [uuid] is the
    check of [z.string().uuid()], which belongs to the validation
    library. *)
Variable DEFAULT_USER_ID : string.
Variable uuid : string → bool.

(** [GET /api/recipes/:id] *)
Definition GET_recipe (id : string) (st : Store) : Response :=
  if uuid id then
    match getRecipeById id DEFAULT_USER_ID st with
    | Some found => {| status := 200; payload := RecipePayload found |}
    | None => createErrorResponse 404 "Not found" "Recipe not found" None
    end
  else createErrorResponse 400 "Validation failed" "Invalid recipe ID format" None.

(** [PATCH /api/recipes/:id] *)
Definition PATCH_recipe (id : string) (body : option Json) (now : string) (st : Store)
  : Response * Store :=
  if uuid id then
    if truthy (readBody body) then
      match updateRecipeSchema (readBody body) with
      | Invalid issues =>
          (createErrorResponse 400 "Validation failed" "Invalid request data"
             (Some (DetailFields issues)), st)
      | Valid command =>
          match updateRecipe id DEFAULT_USER_ID command now st with
          | (Some updated, st') =>
              ({| status := 200; payload := RecipePayload updated |}, st')
          | (None, st') =>
              (createErrorResponse 404 "Not found" "Recipe not found" None, st')
          end
      end
    else (createErrorResponse 400 "Bad request" "Invalid JSON in request body" None, st)
  else (createErrorResponse 400 "Validation failed" "Invalid recipe ID format" None, st).

(** [DELETE /api/recipes/:id] *)
Definition DELETE_recipe (id : string) (st : Store) : Response * Store :=
  if uuid id then
    match deleteRecipe id DEFAULT_USER_ID st with
    | (true, st') =>
        ({| status := 200; payload := SuccessPayload "Recipe deleted successfully" |}, st')
    | (false, st') =>
        (createErrorResponse 404 "Not found" "Recipe not found" None, st')
    end
  else (createErrorResponse 400 "Validation failed" "Invalid recipe ID format" None, st).

(** [POST /api/recipes] *)
Definition POST_recipes (body : option Json) (createdNow updatedNow : string) (st : Store)
  : Response * Store :=
  if truthy (readBody body) then
    match createRecipeSchema (readBody body) with
    | Invalid issues =>
        (createErrorResponse 400 "Validation failed" "Invalid request data"
           (Some (DetailFields issues)), st)
    | Valid command =>
        let result := createRecipe command DEFAULT_USER_ID createdNow updatedNow st in
        ({| status := 201; payload := RecipePayload result.1 |}, result.2)
    end
  else (createErrorResponse 400 "Bad request" "Invalid JSON in request body" None, st).

(** The query object of [GET /api/recipes]: absent numbers, sort and
    order are replaced before validation. *)
Definition queryParams (raw : RawQuery) : RawQuery :=
  {| raw_page := Some (default (Finite 1) (raw_page raw));
     raw_limit := Some (default (Finite 20) (raw_limit raw));
     raw_sort := Some (default "created_at" (raw_sort raw));
     raw_order := Some (default "desc" (raw_order raw));
     raw_source := raw_source raw |}.

(** [GET /api/recipes] *)
Definition GET_recipes (localeCompare : string → string → Z) (raw : RawQuery)
    (st : Store) : Response :=
  match recipeQuerySchema (queryParams raw) with
  | Failure issues =>
      createErrorResponse 400 "Validation failed" "Invalid query parameters"
        (Some (DetailFields issues))
  | Success data =>
      {| status := 200;
         payload := ListPayload (getRecipes localeCompare DEFAULT_USER_ID data st) |}
  end.

(** [POST /api/recipes/generate] up to the call of the service: the
    response of a rejected request, or the flow to run. *)
Definition POST_generate_flow (body : option Json)
  : Response + Flow GenerateRecipeResponseDTO :=
  if truthy (readBody body) then
    match generateRecipeSchema (readBody body) with
    | Invalid issues =>
        inl (createErrorResponse 400 "Validation failed" "Invalid request data"
               (Some (DetailFields issues)))
    | Valid ingredients =>
        inr (generateRecipeWithWarnings ingredients DEFAULT_USER_ID)
    end
  else inl (createErrorResponse 400 "Bad request" "Invalid JSON in request body" None).

(** [POST /api/recipes/generate]: a failure of the adapter carries the
    message the handler looks for, and becomes the 503 response. *)
Definition POST_generate (env : Collaborators) (body : option Json) : Response :=
  match POST_generate_flow body with
  | inl rejected => rejected
  | inr flow =>
      match run env flow with
      | Some result => {| status := 200; payload := GeneratedPayload result |}
      | None =>
          createErrorResponse 503 "Service temporarily unavailable"
            "The recipe generation service is currently unavailable. Please try again later."
            None
      end
  end.

(** The requests the generate endpoint sends to the adapter. *)
Definition POST_generate_dispatched (env : Collaborators) (body : option Json)
  : list (list string) :=
  match POST_generate_flow body with
  | inl _ => []
  | inr flow => dispatched env flow
  end.

End Handlers.

End Routes.

(** ** Vocabulary of the properties *)

Section Vocabulary.
Import JsString AIService RecipeService Validation.

(** No white space at either end. *)
Definition startsClean (s : string) : bool :=
  match s with
  | EmptyString => true
  | String c _ => negb (isWhiteSpace c)
  end.

Fixpoint endsClean (s : string) : bool :=
  match s with
  | EmptyString => true
  | String c EmptyString => negb (isWhiteSpace c)
  | String _ s' => endsClean s'
  end.

(** The lower-cased avoidance list the loops run over; a missing or
    empty list leaves nothing to match. *)
Definition avoidedTerms (profile : ProfileDTO) : list string :=
  toLowerCase <$> default [] (ingredients_to_avoid profile).

(** What one ingredient line contributes. *)
Definition lineWarning (terms : list string) (line : string) : option IngredientWarning :=
  warn <$> firstAvoided (toLowerCase line) terms.

(** Identifiers are issued from the counter and never twice. *)
Definition wellFormed (st : Store) : Prop :=
  NoDup (r_id <$> MOCK_RECIPES st) ∧
  ∀ r, r ∈ MOCK_RECIPES st →
       ∃ k : nat, (k < mockRecipeCounter st)%nat ∧ r_id r = mockId k.

(** Timestamps printed by [toISOString] have one fixed width, so their
    chronological order is the order of the strings. *)
Definition before (earlier later : string) : Prop := String.ltb earlier later = true.

(** *** Values used in the instances *)

(** The development adapter never rejects. *)
Definition mockCollaborators (profile : option ProfileDTO) : Collaborators :=
  {| adapter := λ ingredients, Some (generateRecipe ingredients);
     profiles := λ _, profile |}.

Definition toast : CreateRecipeCommand :=
  {| c_title := "Toast";
     c_ingredients := ["2 slices of bread"];
     c_preparation_steps := ["Toast the bread"];
     c_source := manual |}.

(** The store after a user "alice" has saved [toast]. *)
Definition storeWithAlice : Store :=
  (createRecipe toast "alice" "2025-01-01T00:00:00.000Z" "2025-01-01T00:00:00.000Z"
     (initialStore "default-user-id")).2.

Definition aliceToast : RecipeDTO :=
  (createRecipe toast "alice" "2025-01-01T00:00:00.000Z" "2025-01-01T00:00:00.000Z"
     (initialStore "default-user-id")).1.

(** A collation for the instances: the order of the code units. *)
Definition codeUnitCompare (a b : string) : Z :=
  match String.compare a b with Lt => (-1)%Z | Eq => 0%Z | Gt => 1%Z end.

Definition limit101 : RawQuery :=
  {| raw_page := None; raw_limit := Some (Finite (101 # 1)%Q); raw_sort := None;
     raw_order := None; raw_source := None |}.

Definition page2of2 : RawQuery :=
  {| raw_page := Some (Finite (2 # 1)%Q); raw_limit := Some (Finite (2 # 1)%Q);
     raw_sort := None; raw_order := None; raw_source := None |}.

Definition page5 : RawQuery :=
  {| raw_page := Some (Finite (5 # 1)%Q); raw_limit := None;
     raw_sort := None; raw_order := None; raw_source := Some "ai" |}.

Definition parsed (raw : RawQuery) : RecipeQueryParams :=
  match recipeQuerySchema raw with
  | Success data => data
  | Failure _ =>
      {| page := None; limit := None; sort := None; order := None; source := None |}
  end.

End Vocabulary.

(** ** Vocabulary of the further properties *)

Section FurtherVocabulary.
Import JsString AIService RecipeService Validation.

(** The names under which a recipe holds a string. *)
Definition stringProperties : list string :=
  ["id"; "user_id"; "title"; "source"; "created_at"; "updated_at"].

(** A comparator that orders: of two values in the wrong order the
    exchanged ones are in the right order, and being in the right order
    is transitive. *)
Definition consistent {A} (cmp : A → A → Z) : Prop :=
  (∀ a b, (0 < cmp a b)%Z → (cmp b a ≤ 0)%Z) ∧
  (∀ a b c, (cmp a b ≤ 0)%Z → (cmp b c ≤ 0)%Z → (cmp a c ≤ 0)%Z).

(** The request for page [p] of a listing. *)
Definition pageRequest (params : RecipeQueryParams) (p : nat) : RecipeQueryParams :=
  {| page := Some (Z.of_nat p); limit := limit params; sort := sort params;
     order := order params; source := source params |}.

(** The whole listing a request pages through. *)
Definition listing (localeCompare : string → string → Z) (userId : string)
    (params : RecipeQueryParams) (st : Store) : list RecipeDTO :=
  sortBy (compareRecipes localeCompare (default "created_at" (sort params))
                         (default desc (order params)))
         (filterRecipes userId (source params) (MOCK_RECIPES st)).

(** A collation for the instances: shorter strings first. *)
Definition lengthCompare (a b : string) : Z :=
  (Z.of_nat (String.length a) - Z.of_nat (String.length b))%Z.

Definition twoPerPage : RecipeQueryParams :=
  {| page := None; limit := Some 2%Z; sort := Some "title"; order := Some asc;
     source := None |}.

Definition retitle : UpdateRecipeCommand :=
  {| u_title := Some "Buttered toast"; u_ingredients := None;
     u_preparation_steps := None |}.

(** A JSON string and what the schemas make of it: the trimmed text,
    which is not empty. *)
Definition trimmedText (item : Schemas.Json) (t : string) : Prop :=
  ∃ s, item = Schemas.JString s ∧ t = trim s ∧ t ≠ "".

(** A text the schemas leave as it is. *)
Definition cleanText (t : string) : Prop := trim t = t ∧ t ≠ "".

(** A command the create schema leaves as it is. *)
Definition acceptable (command : CreateRecipeCommand) : Prop :=
  cleanText (c_title command) ∧ (String.length (c_title command) ≤ 255)%nat ∧
  c_ingredients command ≠ [] ∧ Forall cleanText (c_ingredients command) ∧
  c_preparation_steps command ≠ [] ∧ Forall cleanText (c_preparation_steps command).

(** The draft of the adapter as the command that saves it. *)
Definition draftCommand (draft : GeneratedRecipeDTO) : CreateRecipeCommand :=
  {| c_title := g_title draft; c_ingredients := g_ingredients draft;
     c_preparation_steps := g_preparation_steps draft; c_source := ai |}.

Definition sourceName (source : RecipeSource) : string :=
  match source with ai => "ai" | manual => "manual" end.

(** The number [n] is the integer [z]. *)
Definition isInteger (n : JsNumber) (z : Z) : Prop :=
  ∃ q, n = Finite q ∧ (inject_Z z == q)%Q.

(** A check of the 8-4-4-4-12 shape of hexadecimal digits, for the
    instances. *)
Definition isHex (c : ascii) : bool :=
  inRange 48 57 c || inRange 97 102 c || inRange 65 70 c.

Definition hexUuid (s : string) : bool :=
  Nat.eqb (String.length s) 36 &&
  forallb (λ i, match String.get i s with
                | Some c => if bool_decide (i ∈ [8; 13; 18; 23]%nat)
                            then Ascii.eqb c "-" else isHex c
                | None => false
                end) (seq 0 36).

(** A store in which ten identifiers have been issued. *)
Definition storeAfterSixSaves : Store :=
  Nat.iter 6 (λ st, (createRecipe toast "default-user-id" "2025-01-01T00:00:00.000Z"
                       "2025-01-01T00:00:00.000Z" st).2)
    (initialStore "default-user-id").

Definition threeIngredients : Schemas.Json :=
  Schemas.JObject
    [("ingredients",
      Schemas.JArray [Schemas.JString " chicken "; Schemas.JString "rice";
                      Schemas.JString "<b>peas</b>"])].

End FurtherVocabulary.

(** * Properties *)

(** ** Strings *)

Section StringFacts.
Import JsString.

Lemma app_String c s t : String c s +:+ t = String c (s +:+ t).
Proof. reflexivity. Qed.

Lemma startsWith_spec s sub :
  startsWith s sub = true ↔ ∃ post, s = sub +:+ post.
Proof.
  revert s. induction sub as [|b sub IH]; intros s; simpl.
  - split; [by exists s|done].
  - destruct s as [|a s].
    + split; [done|]. intros [post Hpost]. discriminate.
    + rewrite andb_true_iff, Ascii.eqb_eq, IH. split.
      * intros [-> [post ->]]. by exists post.
      * intros [post Hpost]. injection Hpost as -> ->. eauto.
Qed.

Lemma includes_spec s sub :
  includes s sub = true ↔ ∃ pre post, s = pre +:+ sub +:+ post.
Proof.
  split.
  - induction s as [|c s IH].
    + simpl. rewrite orb_false_r. intros [post ->]%startsWith_spec.
      by exists "", post.
    + cbn [includes]. intros [H|H]%orb_true_iff.
      * apply startsWith_spec in H as [post ->]. by exists "", post.
      * destruct (IH H) as (pre & post & ->). by exists (String c pre), post.
  - intros (pre & post & ->). induction pre as [|c pre IH].
    + assert (Hstart : startsWith (sub +:+ post) sub = true)
        by (apply startsWith_spec; eauto).
      simpl. destruct (sub +:+ post); simpl; by rewrite Hstart.
    + rewrite app_String. simpl. rewrite IH. apply orb_true_r.
Qed.

Lemma trimStart_spec s :
  ∃ pre, s = pre +:+ trimStart s ∧ allChars isWhiteSpace pre = true.
Proof.
  induction s as [|c s (pre & Hs & Hpre)]; simpl.
  - by exists "".
  - destruct (isWhiteSpace c) eqn:Hc.
    + exists (String c pre). rewrite app_String, <- Hs. simpl. by rewrite Hc, Hpre.
    + by exists "".
Qed.

Lemma trimStart_clean s : startsClean (trimStart s) = true.
Proof.
  induction s as [|c s IH]; simpl; [done|].
  destruct (isWhiteSpace c) eqn:Hc; [done|]. simpl. by rewrite Hc.
Qed.

Lemma trimEnd_spec s :
  ∃ post, s = trimEnd s +:+ post ∧ allChars isWhiteSpace post = true.
Proof.
  induction s as [|c s (post & Hs & Hpost)]; simpl.
  - by exists "".
  - destruct (isWhiteSpace c && isEmpty (trimEnd s)) eqn:Hc.
    + apply andb_true_iff in Hc as [Hc He].
      destruct (trimEnd s); [|done]. change ("" +:+ post) with post in Hs.
      subst post. exists (String c s). simpl. by rewrite Hc, Hpost.
    + exists post. by rewrite app_String, <- Hs.
Qed.

Lemma trimEnd_clean s : endsClean (trimEnd s) = true.
Proof.
  induction s as [|c s IH]; simpl; [done|].
  destruct (trimEnd s) as [|a t] eqn:Ht.
  - destruct (isWhiteSpace c) eqn:Hc; simpl; [done|by rewrite Hc].
  - rewrite andb_false_r. exact IH.
Qed.

Lemma trimEnd_startsClean s : startsClean s = true → startsClean (trimEnd s) = true.
Proof.
  destruct s as [|c s]; simpl; [done|].
  intros Hc%negb_true_iff. by rewrite Hc; simpl; rewrite Hc.
Qed.

(** [trim] removes white space at both ends, and only that. *)
Lemma trim_spec s :
  ∃ pre post,
    s = pre +:+ trim s +:+ post ∧
    allChars isWhiteSpace pre = true ∧ allChars isWhiteSpace post = true ∧
    startsClean (trim s) = true ∧ endsClean (trim s) = true.
Proof.
  destruct (trimStart_spec s) as (pre & Hs & Hpre).
  destruct (trimEnd_spec (trimStart s)) as (post & Ht & Hpost).
  exists pre, post. unfold trim. rewrite <- Ht.
  split_and!; auto using trimEnd_clean, trimEnd_startsClean, trimStart_clean.
Qed.

(** [slice(0, n)] is the prefix of [n] code units, or all of a shorter
    string. *)
Lemma slice0_spec n s :
  ∃ rest, s = slice0 n s +:+ rest ∧
          String.length (slice0 n s) = Nat.min n (String.length s).
Proof.
  revert s. induction n as [|n IH]; intros s.
  - by exists s.
  - destruct s as [|c s]; [by exists ""|].
    destruct (IH s) as (rest & Hs & Hlen). exists rest. simpl.
    by rewrite app_String, <- Hs, Hlen.
Qed.

(** The replacement keeps exactly the code units of the class, in order. *)
Lemma removeUnless_filter keep s :
  list_ascii_of_string (removeUnless keep s) =
  List.filter keep (list_ascii_of_string s).
Proof.
  induction s as [|c s IH]; simpl; [done|].
  destruct (keep c); simpl; by rewrite IH.
Qed.

Lemma removeUnless_allChars keep s : allChars keep (removeUnless keep s) = true.
Proof.
  induction s as [|c s IH]; simpl; [done|].
  destruct (keep c) eqn:Hc; simpl; [by rewrite Hc|done].
Qed.

Lemma removeUnless_length keep s :
  (String.length (removeUnless keep s) ≤ String.length s)%nat.
Proof.
  induction s as [|c s IH]; simpl; [done|]. destruct (keep c); simpl; lia.
Qed.

Lemma removeUnless_none keep s :
  allChars (λ c, negb (keep c)) s = true → removeUnless keep s = "".
Proof.
  induction s as [|c s IH]; simpl; [done|].
  intros [Hc%negb_true_iff Hs]%andb_true_iff. rewrite Hc. auto.
Qed.

Lemma allChars_slice0 p n s : allChars p s = true → allChars p (slice0 n s) = true.
Proof.
  revert s. induction n as [|n IH]; intros [|c s]; simpl; try done.
  intros [-> Hs]%andb_true_iff. simpl. auto.
Qed.

(** A string without allowed code units has no white space to trim. *)
Lemma trim_disallowed s :
  allChars (λ c, negb (AIService.allowed c)) s = true → trim s = s.
Proof.
  intros Hs.
  assert (Hnw : allChars (λ c, negb (isWhiteSpace c)) s = true).
  { induction s as [|c s IH]; simpl in *; [done|].
    apply andb_true_iff in Hs as [Hc Hs]. rewrite IH by done.
    unfold AIService.allowed in Hc. destruct (isWhiteSpace c); [|done].
    by rewrite orb_true_r in Hc. }
  clear Hs. unfold trim.
  assert (trimStart s = s) as ->.
  { destruct s as [|c s]; simpl in *; [done|].
    by apply andb_true_iff in Hnw as [->%negb_true_iff _]. }
  induction s as [|c s IH]; simpl in *; [done|].
  apply andb_true_iff in Hnw as [->%negb_true_iff Hs]. simpl. by rewrite IH.
Qed.

End StringFacts.

(** ** The sanitizer and the generate flow *)

Section Sanitizer.
Import JsString AIService RecipeService.

Lemma allowed_spec c :
  allowed c = true ↔
  isWord c = true ∨ isWhiteSpace c = true ∨ c = ","%char ∨ c = "."%char ∨ c = "-"%char.
Proof.
  unfold allowed. rewrite !orb_true_iff, !Ascii.eqb_eq. tauto.
Qed.

Lemma sanitizeIngredient_length s : (String.length (sanitizeIngredient s) ≤ 100)%nat.
Proof.
  unfold sanitizeIngredient.
  destruct (slice0_spec 100 (trim s)) as (rest & _ & Hlen).
  pose proof (removeUnless_length allowed (slice0 100 (trim s))). lia.
Qed.

Lemma sanitizeIngredient_disallowed s :
  allChars (λ c, negb (allowed c)) s = true → sanitizeIngredient s = "".
Proof.
  intros Hs. unfold sanitizeIngredient. rewrite trim_disallowed by done.
  by apply removeUnless_none, allChars_slice0.
Qed.

(** Both revisions of the flow send one request, whatever the
    collaborators answer, and it carries the sanitized list. *)
Lemma dispatched_generate env ingredients userId :
  dispatched env (generateRecipeWithWarnings ingredients userId) =
    [sanitizeIngredients ingredients] ∧
  dispatched env (generateRecipeWithWarnings_mock ingredients userId) =
    [sanitizeIngredients ingredients].
Proof.
  unfold generateRecipeWithWarnings, generateRecipeWithWarnings_mock. simpl.
  by destruct (adapter env (sanitizeIngredients ingredients)).
Qed.

(** What a run of the flow answers: the draft of the adapter for the
    sanitized list, with the warnings of the profile if there is one. *)
Lemma run_generate env ingredients userId :
  run env (generateRecipeWithWarnings ingredients userId) =
    (λ g, {| recipe := g;
             warnings :=
               match profiles env userId with
               | Some profile => checkIngredientsAgainstProfile (g_ingredients g) profile
               | None => []
               end |}) <$> adapter env (sanitizeIngredients ingredients) ∧
  run env (generateRecipeWithWarnings_mock ingredients userId) =
    (λ g, {| recipe := g; warnings := [] |})
      <$> adapter env (sanitizeIngredients ingredients).
Proof.
  unfold generateRecipeWithWarnings, generateRecipeWithWarnings_mock. simpl.
  by destruct (adapter env (sanitizeIngredients ingredients)).
Qed.

(** C3.  Sanitization maps every ingredient by [trim], then
    [slice(0, 100)], then removal of every code unit outside word
    characters, white space, comma, period and hyphen: [trim] drops
    white space at both ends and nothing else, the slice is the prefix
    of at most 100 code units, the removal keeps exactly the allowed
    code units in order.  In the generate flow, for every input list
    and whatever the collaborators answer, the only request sent to the
    generation service is the sanitized list. *)
Theorem sanitize_then_dispatch :
  (∀ ingredients,
     sanitizeIngredients ingredients =
     (λ s, removeUnless allowed (slice0 100 (trim s))) <$> ingredients) ∧
  (∀ s, ∃ pre post,
     s = pre +:+ trim s +:+ post ∧
     allChars isWhiteSpace pre = true ∧ allChars isWhiteSpace post = true ∧
     startsClean (trim s) = true ∧ endsClean (trim s) = true) ∧
  (∀ s, ∃ rest,
     s = slice0 100 s +:+ rest ∧
     String.length (slice0 100 s) = Nat.min 100 (String.length s)) ∧
  (∀ s, list_ascii_of_string (removeUnless allowed s) =
        List.filter allowed (list_ascii_of_string s)) ∧
  (∀ c, allowed c = true ↔
        isWord c = true ∨ isWhiteSpace c = true ∨
        c = ","%char ∨ c = "."%char ∨ c = "-"%char) ∧
  (∀ s, (String.length (sanitizeIngredient s) ≤ 100)%nat ∧
        allChars allowed (sanitizeIngredient s) = true) ∧
  (∀ env ingredients userId,
     dispatched env (generateRecipeWithWarnings ingredients userId) =
       [sanitizeIngredients ingredients] ∧
     dispatched env (generateRecipeWithWarnings_mock ingredients userId) =
       [sanitizeIngredients ingredients]).
Proof.
  split_and!.
  - done.
  - apply trim_spec.
  - apply slice0_spec.
  - apply removeUnless_filter.
  - apply allowed_spec.
  - intros s. split; [apply sanitizeIngredient_length|].
    apply removeUnless_allChars.
  - apply dispatched_generate.
Qed.

(** C9.  [sanitizeIngredients] is an element-wise map: the result has the
    length of the input and its element [i] is the sanitized element
    [i]; an element made of disallowed code units only, such as
    ["@#$%"], becomes the empty string; and the flow sends the list with
    that empty string to the generation service, nothing checking the
    sanitized elements for emptiness. *)
Theorem sanitize_elementwise_may_empty :
  (∀ ingredients, length (sanitizeIngredients ingredients) = length ingredients) ∧
  (∀ ingredients (i : nat),
     sanitizeIngredients ingredients !! i = sanitizeIngredient <$> ingredients !! i) ∧
  (∀ s, allChars (λ c, negb (allowed c)) s = true → sanitizeIngredient s = "") ∧
  sanitizeIngredient "@#$%" = "" ∧
  (∀ env ingredients userId (i : nat) s,
     ingredients !! i = Some s →
     allChars (λ c, negb (allowed c)) s = true →
     ∃ request,
       request !! i = Some "" ∧
       dispatched env (generateRecipeWithWarnings ingredients userId) = [request] ∧
       dispatched env (generateRecipeWithWarnings_mock ingredients userId) = [request]).
Proof.
  split_and!.
  - intros. apply length_fmap.
  - intros. apply list_lookup_fmap.
  - apply sanitizeIngredient_disallowed.
  - reflexivity.
  - intros env ingredients userId i s Hi Hs.
    exists (sanitizeIngredients ingredients). split.
    + unfold sanitizeIngredients. rewrite list_lookup_fmap, Hi. simpl.
      by rewrite sanitizeIngredient_disallowed.
    + apply dispatched_generate.
Qed.

Lemma sanitize_then_dispatch_witness :
  allowed "-"%char = true ∧
  dispatched (mockCollaborators None)
    (generateRecipeWithWarnings ["  chicken <b>"; "rice"; "peas"] "default-user-id")
  = [["chicken b"; "rice"; "peas"]].
Proof.
  destruct sanitize_then_dispatch as (_ & _ & _ & _ & Hallowed & _ & Hflow).
  split.
  - apply Hallowed. do 4 right. reflexivity.
  - apply (Hflow (mockCollaborators None) ["  chicken <b>"; "rice"; "peas"]
             "default-user-id").
Defined.

Lemma sanitize_elementwise_may_empty_witness :
  ∃ request,
    request !! 0%nat = Some "" ∧
    dispatched (mockCollaborators None)
      (generateRecipeWithWarnings ["@#$%"; "rice"; "eggs"] "default-user-id") = [request] ∧
    dispatched (mockCollaborators None)
      (generateRecipeWithWarnings_mock ["@#$%"; "rice"; "eggs"] "default-user-id") = [request].
Proof.
  destruct sanitize_elementwise_may_empty as (_ & _ & _ & _ & H).
  apply (H (mockCollaborators None) ["@#$%"; "rice"; "eggs"] "default-user-id" 0%nat "@#$%");
    reflexivity.
Defined.

End Sanitizer.

(** ** The conflict checker *)

Section Checker.
Import JsString RecipeService.

Lemma omap_cons_case {A B} (f : A → option B) x l :
  omap f (x :: l) = match f x with Some y => y :: omap f l | None => omap f l end.
Proof. reflexivity. Qed.

Lemma firstAvoided_Some line terms a :
  firstAvoided line terms = Some a ↔
  ∃ pre post, terms = pre ++ a :: post ∧ includes line a = true ∧
              Forall (λ b, includes line b = false) pre.
Proof.
  induction terms as [|t terms IH]; simpl.
  - split; [done|]. intros (pre & post & H & _). by destruct pre.
  - destruct (includes line t) eqn:Ht.
    + split.
      * intros [= ->]. by exists [], terms.
      * intros ([|b pre] & post & H & Ha & Hpre).
        -- by injection H as -> _.
        -- injection H as -> _. apply Forall_cons in Hpre as [Hb _]. congruence.
    + rewrite IH. split.
      * intros (pre & post & -> & Ha & Hpre). exists (t :: pre), post. auto.
      * intros ([|b pre] & post & H & Ha & Hpre).
        -- injection H as -> _. congruence.
        -- injection H as -> ->. apply Forall_cons in Hpre as [_ Hpre]. eauto.
Qed.

Lemma firstAvoided_is_Some line terms :
  is_Some (firstAvoided line terms) ↔ ∃ t, t ∈ terms ∧ includes line t = true.
Proof.
  induction terms as [|t terms IH]; simpl.
  - split; [by intros [? ?]|]. intros (t & Ht%elem_of_nil & _). done.
  - destruct (includes line t) eqn:Ht.
    + split; [|done]. intros _. exists t. split; [left|done].
    + rewrite IH. split.
      * intros (a & Ha & Hin). exists a. split; [by right|done].
      * intros (a & [->|Ha]%elem_of_cons & Hin); [congruence|eauto].
Qed.

Lemma scanIngredients_omap recipeIngredients terms :
  scanIngredients recipeIngredients terms = omap (lineWarning terms) recipeIngredients.
Proof.
  induction recipeIngredients as [|line rest IH]; [done|].
  rewrite omap_cons_case. simpl. unfold lineWarning at 1.
  destruct (firstAvoided (toLowerCase line) terms); simpl; by rewrite IH.
Qed.

Lemma check_omap recipeIngredients profile :
  checkIngredientsAgainstProfile recipeIngredients profile =
  omap (lineWarning (avoidedTerms profile)) recipeIngredients.
Proof.
  unfold checkIngredientsAgainstProfile, avoidedTerms.
  destruct (ingredients_to_avoid profile) as [[|a avoid]|]; simpl;
    [| apply (scanIngredients_omap _ (toLowerCase a :: map toLowerCase avoid)) |];
    by induction recipeIngredients.
Qed.

Lemma check_app l1 l2 profile :
  checkIngredientsAgainstProfile (l1 ++ l2) profile =
  checkIngredientsAgainstProfile l1 profile ++ checkIngredientsAgainstProfile l2 profile.
Proof. rewrite !check_omap. apply omap_app. Qed.

Lemma check_length recipeIngredients profile :
  (length (checkIngredientsAgainstProfile recipeIngredients profile)
   ≤ length recipeIngredients)%nat.
Proof.
  rewrite check_omap.
  induction recipeIngredients as [|line rest IH]; [done|].
  rewrite omap_cons_case. destruct (lineWarning _ line); simpl; lia.
Qed.

Lemma check_count recipeIngredients profile a :
  length (filter (λ w, w_ingredient w = a)
            (checkIngredientsAgainstProfile recipeIngredients profile)) =
  length (filter (λ line, firstAvoided (toLowerCase line) (avoidedTerms profile) = Some a)
            recipeIngredients).
Proof.
  rewrite check_omap.
  induction recipeIngredients as [|line rest IH]; [done|].
  rewrite omap_cons_case, (filter_cons _ line). unfold lineWarning at 1.
  destruct (firstAvoided (toLowerCase line) (avoidedTerms profile)) as [b|]; simpl.
  - rewrite filter_cons. simpl.
    destruct (decide (b = a)) as [->|Hne].
    + rewrite decide_True by done. simpl. by rewrite IH.
    + rewrite decide_False by congruence. done.
  - exact IH.
Qed.

(** C2, as the code has it.  The checker emits, in the order of the
    ingredient lines, at most one warning per ingredient line; the
    warning of a line names the first term of the lower-cased avoidance
    list that the lower-cased line contains, and the terms behind it
    are not tried for that line.  A term is warned about once for
    every line whose first match it is: nothing is deduplicated across
    lines. *)
Theorem checker_one_warning_per_line recipeIngredients profile :
  checkIngredientsAgainstProfile recipeIngredients profile =
    omap (lineWarning (avoidedTerms profile)) recipeIngredients ∧
  (length (checkIngredientsAgainstProfile recipeIngredients profile)
   ≤ length recipeIngredients)%nat ∧
  (∀ line a,
     lineWarning (avoidedTerms profile) line = Some (warn a) ↔
     ∃ pre post,
       avoidedTerms profile = pre ++ a :: post ∧
       includes (toLowerCase line) a = true ∧
       Forall (λ b, includes (toLowerCase line) b = false) pre) ∧
  (∀ a,
     length (filter (λ w, w_ingredient w = a)
               (checkIngredientsAgainstProfile recipeIngredients profile)) =
     length (filter (λ line, firstAvoided (toLowerCase line) (avoidedTerms profile) = Some a)
               recipeIngredients)).
Proof.
  split_and!.
  - apply check_omap.
  - apply check_length.
  - intros line a. rewrite <- firstAvoided_Some. unfold lineWarning.
    destruct (firstAvoided _ _) as [b|]; simpl; [|done].
    split; [|by intros [= ->]].
    intros H. exact (f_equal (fmap (M:=option) w_ingredient) H).
  - apply check_count.
Qed.

(** C2, as stated, fails: "butter" is an avoided term that the line
    contains, and no warning names it, the loop having stopped at
    "peanut". *)
Lemma checker_later_term_unreported :
  let profile := {| p_user_id := "default-user-id";
                    ingredients_to_avoid := Some ["peanut"; "butter"] |} in
  let produced := checkIngredientsAgainstProfile ["2 tbsp peanut butter"] profile in
  includes (toLowerCase "2 tbsp peanut butter") (toLowerCase "butter") = true ∧
  produced = [warn "peanut"] ∧
  ¬ ∃ w, w ∈ produced ∧ w_ingredient w = "butter".
Proof.
  split_and!; [reflexivity..|].
  intros (w & Hw & Hbutter). vm_compute in Hw.
  apply list_elem_of_singleton in Hw. subst w. discriminate.
Qed.

(** C8.  A line is flagged exactly when its lower-cased form contains
    the lower-cased form of some avoided term as a substring; the
    warnings of a list are those of its lines, in order; the term "nut"
    flags "2 tbsp peanut butter"; an empty avoidance list gives no
    warning for any ingredient list. *)
Theorem checker_substring_match :
  (∀ line profile,
     checkIngredientsAgainstProfile [line] profile ≠ [] ↔
     ∃ a, a ∈ default [] (ingredients_to_avoid profile) ∧
          ∃ pre post, toLowerCase line = pre +:+ toLowerCase a +:+ post) ∧
  (∀ l1 l2 profile,
     checkIngredientsAgainstProfile (l1 ++ l2) profile =
     checkIngredientsAgainstProfile l1 profile ++
     checkIngredientsAgainstProfile l2 profile) ∧
  (∀ userId,
     checkIngredientsAgainstProfile ["2 tbsp peanut butter"]
       {| p_user_id := userId; ingredients_to_avoid := Some ["nut"] |} = [warn "nut"]) ∧
  (∀ recipeIngredients userId,
     checkIngredientsAgainstProfile recipeIngredients
       {| p_user_id := userId; ingredients_to_avoid := Some [] |} = []).
Proof.
  split_and!.
  - intros line profile. rewrite check_omap. simpl. unfold lineWarning.
    transitivity (is_Some (firstAvoided (toLowerCase line) (avoidedTerms profile))).
    { destruct (firstAvoided _ _); simpl; split; done. }
    rewrite firstAvoided_is_Some. unfold avoidedTerms. split.
    + intros (t & (a & -> & Ha)%list_elem_of_fmap & Hin).
      exists a. split; [done|]. by apply includes_spec.
    + intros (a & Ha & Hsub). exists (toLowerCase a). split.
      * apply list_elem_of_fmap. eauto.
      * by apply includes_spec.
  - apply check_app.
  - reflexivity.
  - reflexivity.
Qed.

Lemma checker_one_warning_per_line_witness :
  lineWarning
    (avoidedTerms {| p_user_id := "default-user-id";
                     ingredients_to_avoid := Some ["Peanut"; "butter"] |})
    "2 tbsp peanut butter" = Some (warn "peanut").
Proof.
  destruct (checker_one_warning_per_line ["2 tbsp peanut butter"]
              {| p_user_id := "default-user-id";
                 ingredients_to_avoid := Some ["Peanut"; "butter"] |})
    as (_ & _ & Hfirst & _).
  apply Hfirst. exists [], ["butter"]. split_and!; [reflexivity..|constructor].
Defined.

Lemma checker_substring_match_witness :
  checkIngredientsAgainstProfile ["2 tbsp Peanut butter"]
    {| p_user_id := "default-user-id"; ingredients_to_avoid := Some ["NUT"] |} ≠ [].
Proof.
  destruct checker_substring_match as (Hflag & _).
  apply Hflag. exists "NUT". split; [apply list_elem_of_here|].
  exists "2 tbsp pea", " butter". reflexivity.
Defined.

End Checker.

(** ** The recipe collection *)

Section StoreFacts.
Import RecipeService.

Variable DEFAULT_USER_ID : string.

Lemma mockId_inj k1 k2 : mockId k1 = mockId k2 → k1 = k2.
Proof.
  unfold mockId. intros H%(inj (String.append _)). by apply (inj pretty).
Qed.

Lemma find_singleton {A} (P : A → Prop) `{∀ x, Decision (P x)} x :
  P x → list_find P [x] = Some (0%nat, x).
Proof. intros HP. simpl. by rewrite decide_True. Qed.

Lemma find_matches id userId (l : list RecipeDTO) i r :
  list_find (matches id userId) l = Some (i, r) →
  l !! i = Some r ∧ r_id r = id ∧ r_user_id r = userId.
Proof. intros (Hi & [Hid Hu] & _)%list_find_Some. done. Qed.

Lemma unique_by_id (l : list RecipeDTO) r1 r2 :
  NoDup (r_id <$> l) → r1 ∈ l → r2 ∈ l → r_id r1 = r_id r2 → r1 = r2.
Proof.
  induction l as [|x l IH]; simpl; [by intros _ ?%elem_of_nil|].
  intros [Hx Hl]%NoDup_cons [->|H1]%elem_of_cons [->|H2]%elem_of_cons Heq; auto.
  - destruct Hx. rewrite Heq. by apply list_elem_of_fmap_2.
  - destruct Hx. rewrite <- Heq. by apply list_elem_of_fmap_2.
Qed.

(** Removing the entry at [i] removes its identifier altogether. *)
Lemma delete_forgets_id (l : list RecipeDTO) i r r' :
  NoDup (r_id <$> l) → l !! i = Some r → r' ∈ delete i l → r_id r' ≠ r_id r.
Proof.
  intros Hnd Hi Hin Heq.
  rewrite <- (take_drop_middle l i r Hi), fmap_app, fmap_cons in Hnd.
  apply NoDup_app in Hnd as (_ & Hdisj & [Hnotin _]%NoDup_cons).
  rewrite delete_take_drop in Hin. apply elem_of_app in Hin as [Hin|Hin].
  - apply (Hdisj (r_id r')); [by apply list_elem_of_fmap_2|]. rewrite Heq. left.
  - apply Hnotin. rewrite <- Heq. by apply list_elem_of_fmap_2.
Qed.

Lemma initial_wellFormed : wellFormed (initialStore DEFAULT_USER_ID).
Proof.
  split.
  - apply (bool_decide_unpack _). vm_compute. exact I.
  - intros r Hr. simpl in Hr. unfold initialRecipes in Hr.
    repeat (apply elem_of_cons in Hr as [->|Hr]);
      [exists 1%nat|exists 2%nat|exists 3%nat|by apply elem_of_nil in Hr];
      (split; [simpl; lia|reflexivity]).
Qed.

Lemma create_wellFormed command userId createdNow updatedNow st :
  wellFormed st →
  wellFormed (createRecipe command userId createdNow updatedNow st).2.
Proof.
  intros [Hnd Hfresh]. split; simpl.
  - rewrite fmap_app. apply NoDup_app. split_and!; [done| |apply NoDup_singleton].
    intros x (r & Hx & Hr)%list_elem_of_fmap_1 Hnew%list_elem_of_singleton.
    destruct (Hfresh r Hr) as (k & Hk & Hid). simpl in Hnew.
    rewrite Hx, Hid in Hnew. apply mockId_inj in Hnew. lia.
  - intros r [Hr| ->%list_elem_of_singleton]%elem_of_app.
    + destruct (Hfresh r Hr) as (k & Hk & Hid). exists k. split; [lia|done].
    + exists (mockRecipeCounter st). split; [lia|done].
Qed.

Lemma update_wellFormed id userId command now st :
  wellFormed st → wellFormed (updateRecipe id userId command now st).2.
Proof.
  intros [Hnd Hfresh]. unfold updateRecipe.
  destruct (list_find _ _) as [[i old]|] eqn:Hfind; [|done].
  apply find_matches in Hfind as (Hi & _ & _). split; simpl.
  - rewrite list_fmap_insert. simpl. rewrite list_insert_id; [done|].
    by rewrite list_lookup_fmap, Hi.
  - intros r (j & Hj)%list_elem_of_lookup_1.
    apply list_lookup_insert_Some in Hj as [(-> & <- & _)|[_ Hj]].
    + apply (Hfresh old). by eapply list_elem_of_lookup_2.
    + apply Hfresh. by eapply list_elem_of_lookup_2.
Qed.

Lemma delete_wellFormed id userId st :
  wellFormed st → wellFormed (deleteRecipe id userId st).2.
Proof.
  intros [Hnd Hfresh]. unfold deleteRecipe.
  destruct (list_find _ _) as [[i old]|] eqn:Hfind; [|done].
  split; simpl.
  - rewrite list_fmap_delete. eapply sublist_NoDup; [done|apply sublist_delete].
  - intros r Hr%list_elem_of_delete_inv. by apply Hfresh.
Qed.

Lemma step_wellFormed st st' : step st st' → wellFormed st → wellFormed st'.
Proof.
  destruct 1; auto using create_wellFormed, update_wellFormed, delete_wellFormed.
Qed.

Lemma reachable_wellFormed st : reachable DEFAULT_USER_ID st → wellFormed st.
Proof.
  induction 1; eauto using initial_wellFormed, step_wellFormed.
Qed.

(** In a well-formed store, a recipe is invisible to every other user. *)
Lemma foreign_not_found st r userId :
  wellFormed st → r ∈ MOCK_RECIPES st → userId ≠ r_user_id r →
  list_find (matches (r_id r) userId) (MOCK_RECIPES st) = None.
Proof.
  intros [Hnd _] Hr Hne. apply list_find_None, Forall_forall.
  intros r' Hr' [Hid Hu]. apply Hne. rewrite <- Hu.
  by rewrite (unique_by_id _ r' r Hnd Hr' Hr Hid).
Qed.

Lemma stored_found st r :
  wellFormed st → r ∈ MOCK_RECIPES st →
  ∃ i, list_find (matches (r_id r) (r_user_id r)) (MOCK_RECIPES st) = Some (i, r).
Proof.
  intros [Hnd _] Hr.
  destruct (list_find_elem_of (matches (r_id r) (r_user_id r)) _ r Hr)
    as [[i r'] Hfind]; [done|].
  exists i. rewrite Hfind.
  pose proof (find_matches _ _ _ _ _ Hfind) as (Hi & Hid & _).
  by rewrite (unique_by_id _ r' r Hnd (list_elem_of_lookup_2 _ _ _ Hi) Hr Hid).
Qed.

(** C1.  In every store the service can reach, a recipe stored under
    one owner is not found by any other principal: [getRecipeById]
    answers [null], [updateRecipe] answers [null] and [deleteRecipe]
    answers [false], and the two mutating calls leave the store, hence
    the recipe, as it was. *)
Theorem ownership_isolation st r principal :
  reachable DEFAULT_USER_ID st →
  r ∈ MOCK_RECIPES st →
  principal ≠ r_user_id r →
  getRecipeById (r_id r) principal st = None ∧
  (∀ command now,
     updateRecipe (r_id r) principal command now st = (None, st)) ∧
  deleteRecipe (r_id r) principal st = (false, st).
Proof.
  intros Hwf%reachable_wellFormed Hr Hne.
  pose proof (foreign_not_found st r principal Hwf Hr Hne) as Hnone.
  unfold getRecipeById, updateRecipe, deleteRecipe. by rewrite Hnone.
Qed.

(** C5, as the code has it.  For a stored recipe and any update
    command, [updateRecipe] keeps [id], [user_id], [source] and
    [created_at], keeps each of [title], [ingredients] and
    [preparation_steps] that the command leaves out and sets those it
    provides, replaces the recipe in place leaving every other entry
    alone, and sets [updated_at] to the clock reading of the call; so
    [updated_at] moves forward exactly when that reading is later than
    the stored value. *)
Theorem update_frame st old command now :
  reachable DEFAULT_USER_ID st →
  old ∈ MOCK_RECIPES st →
  ∃ updated st' recipeIndex,
    updateRecipe (r_id old) (r_user_id old) command now st = (Some updated, st') ∧
    r_id updated = r_id old ∧
    r_user_id updated = r_user_id old ∧
    r_source updated = r_source old ∧
    r_created_at updated = r_created_at old ∧
    r_title updated = default (r_title old) (u_title command) ∧
    r_ingredients updated = default (r_ingredients old) (u_ingredients command) ∧
    r_preparation_steps updated =
      default (r_preparation_steps old) (u_preparation_steps command) ∧
    r_updated_at updated = now ∧
    (before (r_updated_at old) (r_updated_at updated) ↔ before (r_updated_at old) now) ∧
    MOCK_RECIPES st !! recipeIndex = Some old ∧
    MOCK_RECIPES st' !! recipeIndex = Some updated ∧
    (∀ j : nat, j ≠ recipeIndex → MOCK_RECIPES st' !! j = MOCK_RECIPES st !! j) ∧
    mockRecipeCounter st' = mockRecipeCounter st.
Proof.
  intros Hwf%reachable_wellFormed Hold.
  destruct (stored_found st old Hwf Hold) as [i Hfind].
  pose proof (find_matches _ _ _ _ _ Hfind) as (Hi & _ & _).
  unfold updateRecipe. rewrite Hfind.
  eexists _, _, i. split; [reflexivity|]. simpl. split_and!; try done.
  - apply list_lookup_insert_eq. by eapply lookup_lt_Some.
  - intros j Hj. by apply list_lookup_insert_ne.
Qed.

(** Creation in a reachable store: the new recipe is the one
    [getRecipeById] then answers, it carries the fields of the command,
    the identifier made from the counter, and the two clock readings. *)
Lemma create_then_get st command userId createdNow updatedNow :
  reachable DEFAULT_USER_ID st →
  let created := (createRecipe command userId createdNow updatedNow st).1 in
  let st' := (createRecipe command userId createdNow updatedNow st).2 in
  getRecipeById (r_id created) userId st' = Some created ∧
  r_title created = c_title command ∧
  r_ingredients created = c_ingredients command ∧
  r_preparation_steps created = c_preparation_steps command ∧
  r_source created = c_source command ∧
  r_user_id created = userId ∧
  r_id created = mockId (mockRecipeCounter st) ∧
  r_created_at created = createdNow ∧
  r_updated_at created = updatedNow.
Proof.
  intros [_ Hfresh]%reachable_wellFormed. simpl. split_and!; [|reflexivity..].
  unfold getRecipeById. cbn [MOCK_RECIPES].
  match goal with |- context [MOCK_RECIPES st ++ [?r]] => set (created := r) end.
  rewrite list_find_app_r.
  - rewrite (find_singleton (matches (mockId (mockRecipeCounter st)) userId) created);
      [reflexivity|by split].
  - apply list_find_None, Forall_forall. intros r Hr [Hid _].
    destruct (Hfresh r Hr) as (k & Hk & Hk'). rewrite Hk' in Hid.
    apply mockId_inj in Hid. lia.
Qed.

(** C7.  In every store the service can reach: when some recipe
    matches the identifier and the owner, the first [deleteRecipe]
    answers [true] and a second one, on the store the first left,
    answers [false] and changes nothing; when no recipe matches,
    [deleteRecipe] answers [false] and changes nothing. *)
Theorem delete_idempotent st id userId :
  reachable DEFAULT_USER_ID st →
  ((∃ r, r ∈ MOCK_RECIPES st ∧ matches id userId r) →
     ∃ st', deleteRecipe id userId st = (true, st') ∧
            deleteRecipe id userId st' = (false, st')) ∧
  ((∀ r, r ∈ MOCK_RECIPES st → ¬ matches id userId r) →
     deleteRecipe id userId st = (false, st)).
Proof.
  intros [Hnd _]%reachable_wellFormed. split.
  - intros (r & Hr & Hm).
    destruct (list_find_elem_of (matches id userId) _ r Hr Hm) as [[i r'] Hfind].
    pose proof (find_matches _ _ _ _ _ Hfind) as (Hi & Hid & _).
    unfold deleteRecipe at 1. rewrite Hfind. eexists. split; [reflexivity|].
    unfold deleteRecipe. simpl.
    assert (list_find (matches id userId) (delete i (MOCK_RECIPES st)) = None) as ->; [|done].
    apply list_find_None, Forall_forall. intros x Hx [Hxid _].
    apply (delete_forgets_id _ _ _ _ Hnd Hi Hx). congruence.
  - intros Hnone. unfold deleteRecipe.
    assert (list_find (matches id userId) (MOCK_RECIPES st) = None) as ->; [|done].
    by apply list_find_None, Forall_forall.
Qed.

End StoreFacts.

(** *** Instances *)

Section StoreInstances.
Import RecipeService.

Lemma storeWithAlice_reachable : reachable "default-user-id" storeWithAlice.
Proof.
  eapply reachable_step; [apply reachable_initial|]. apply step_create.
Defined.

Lemma aliceToast_stored : aliceToast ∈ MOCK_RECIPES storeWithAlice.
Proof. do 3 apply list_elem_of_further. apply list_elem_of_here. Defined.

Lemma ownership_isolation_witness :
  getRecipeById (r_id aliceToast) "default-user-id" storeWithAlice = None ∧
  (∀ command now,
     updateRecipe (r_id aliceToast) "default-user-id" command now storeWithAlice
     = (None, storeWithAlice)) ∧
  deleteRecipe (r_id aliceToast) "default-user-id" storeWithAlice
  = (false, storeWithAlice).
Proof.
  apply (ownership_isolation "default-user-id" storeWithAlice aliceToast "default-user-id").
  - exact storeWithAlice_reachable.
  - exact aliceToast_stored.
  - simpl. discriminate.
Defined.

Lemma update_frame_witness :
  ∃ updated st' recipeIndex,
    updateRecipe (r_id aliceToast) "alice"
      {| u_title := Some "Buttered toast"; u_ingredients := None;
         u_preparation_steps := None |}
      "2025-01-02T08:30:00.000Z" storeWithAlice = (Some updated, st') ∧
    r_ingredients updated = ["2 slices of bread"] ∧
    r_title updated = "Buttered toast" ∧
    r_updated_at updated = "2025-01-02T08:30:00.000Z" ∧
    MOCK_RECIPES st' !! recipeIndex = Some updated.
Proof.
  destruct (update_frame "default-user-id" storeWithAlice aliceToast
              {| u_title := Some "Buttered toast"; u_ingredients := None;
                 u_preparation_steps := None |}
              "2025-01-02T08:30:00.000Z"
              storeWithAlice_reachable aliceToast_stored)
    as (updated & st' & i & Hupd & _ & _ & _ & _ & Ht & Hi & _ & Hnow & _ & _ & Hst & _).
  exists updated, st', i. split_and!; assumption.
Defined.

Lemma delete_idempotent_witness :
  ∃ st', deleteRecipe (r_id aliceToast) "alice" storeWithAlice = (true, st') ∧
         deleteRecipe (r_id aliceToast) "alice" st' = (false, st').
Proof.
  apply (delete_idempotent "default-user-id" storeWithAlice
           (r_id aliceToast) "alice" storeWithAlice_reachable).
  exists aliceToast. split; [exact aliceToast_stored|]. split; reflexivity.
Defined.

(** C5, as stated, fails: an update whose clock reading is the stored
    [updated_at] (the same millisecond as the creation) succeeds and
    leaves [updated_at] where it was. *)
Lemma update_same_millisecond :
  ∃ updated st',
    aliceToast ∈ MOCK_RECIPES storeWithAlice ∧
    updateRecipe (r_id aliceToast) "alice"
      {| u_title := Some "Buttered toast"; u_ingredients := None;
         u_preparation_steps := None |}
      "2025-01-01T00:00:00.000Z" storeWithAlice = (Some updated, st') ∧
    r_updated_at updated = r_updated_at aliceToast ∧
    ¬ before (r_updated_at aliceToast) (r_updated_at updated).
Proof.
  eexists _, _. split_and!; [exact aliceToast_stored|reflexivity|reflexivity|].
  unfold before. vm_compute. discriminate.
Qed.

(** C6 at a creation during which the clock ticks between the two
    reads: the recipe read back is the created one, and its two
    timestamps differ. *)
Lemma create_reads_clock_twice :
  let result := createRecipe toast "default-user-id"
                  "2025-01-01T00:00:00.999Z" "2025-01-01T00:00:01.000Z"
                  (initialStore "default-user-id") in
  getRecipeById (r_id result.1) "default-user-id" result.2 = Some result.1 ∧
  r_created_at result.1 = "2025-01-01T00:00:00.999Z" ∧
  r_updated_at result.1 = "2025-01-01T00:00:01.000Z" ∧
  r_created_at result.1 ≠ r_updated_at result.1.
Proof.
  split_and!; [reflexivity..|]. simpl. discriminate.
Qed.

End StoreInstances.

(** ** Listing and pagination *)

Section Pagination.
Import RecipeService Validation.
Local Open Scope Z_scope.

Variable localeCompare : string -> string -> Z.

Lemma insertBy_Permutation {A} (cmp : A → A → Z) x l : insertBy cmp x l ≡ₚ x :: l.
Proof.
  induction l as [|y l IH]; simpl; [done|].
  destruct (0 <? cmp x y); [|done]. rewrite IH. apply Permutation_swap.
Qed.

(** Sorting rearranges and neither drops nor adds. *)
Lemma sortBy_Permutation {A} (cmp : A → A → Z) l : sortBy cmp l ≡ₚ l.
Proof.
  induction l as [|x l IH]; simpl; [done|].
  rewrite insertBy_Permutation. by constructor.
Qed.

Lemma length_sortBy {A} (cmp : A → A → Z) l : length (sortBy cmp l) = length l.
Proof. by rewrite sortBy_Permutation. Qed.

(** [ceilDiv a b] is the least number of pages of [b] that hold [a]. *)
Lemma ceilDiv_spec a b :
  0 < b → (ceilDiv a b - 1) * b < a ≤ ceilDiv a b * b.
Proof.
  intros Hb. unfold ceilDiv.
  pose proof (Z.div_mod (- a) b) as Hdm.
  pose proof (Z.mod_pos_bound (- a) b Hb). nia.
Qed.

Lemma slice_beyond {A} (l : list A) start stop :
  Z.of_nat (length l) ≤ start → start ≤ stop → slice l start stop = [].
Proof.
  intros Hstart Hstop. unfold slice.
  destruct (Z.ltb_spec start 0); [lia|]. destruct (Z.ltb_spec stop 0); [lia|].
  replace (Z.to_nat _) with 0%nat by lia. done.
Qed.

Lemma filterRecipes_spec userId source l r :
  r ∈ filterRecipes userId source l ↔
  r ∈ l ∧ r_user_id r = userId ∧ ∀ s, source = Some s → r_source r = s.
Proof.
  unfold filterRecipes. destruct source as [s|]; rewrite ?list_elem_of_filter.
  - split.
    + intros (Hs & Hu & Hr). split_and!; [done..|]. by intros ? [= <-].
    + intros (Hr & Hu & Hs). auto.
  - split; [intros [Hu Hr]|intros (Hr & Hu & _)]; [|done].
    split_and!; done.
Qed.

Lemma asInteger_Finite q z :
  asInteger (Finite q) = Some z → (inject_Z z == q)%Q.
Proof.
  simpl. destruct (Qeq_bool _ _) eqn:Hq; [|done].
  intros [= <-]. by apply Qeq_bool_iff.
Qed.

(** [.max(100)] rejects; it does not clamp. *)
Lemma parseLimit_above q : (100 < q)%Q → parseLimit (Some (Finite q)) = None.
Proof.
  intros Hq. unfold parseLimit.
  destruct (asInteger (Finite q)) as [z|] eqn:Hz; [|done].
  apply asInteger_Finite in Hz. rewrite <- Hz in Hq.
  change 100%Q with (inject_Z 100) in Hq. rewrite <- Zlt_Qlt in Hq.
  destruct (Z.leb_spec z 100); [lia|]. by rewrite andb_false_r.
Qed.

Lemma parsePage_positive raw p : parsePage raw = Some p → 1 ≤ p.
Proof.
  destruct raw as [n|]; simpl; [|intros [= <-]; lia].
  destruct (asInteger n) as [z|]; [|done].
  destruct (Z.ltb_spec 0 z); [|done]. intros [= <-]. lia.
Qed.

Lemma parseLimit_range raw l : parseLimit raw = Some l → 1 ≤ l ≤ 100.
Proof.
  destruct raw as [n|]; simpl; [|intros [= <-]; lia].
  destruct (asInteger n) as [z|]; [|done].
  destruct (Z.ltb_spec 0 z), (Z.leb_spec z 100); simpl; try done.
  intros [= <-]. lia.
Qed.

Lemma schema_Success raw data :
  recipeQuerySchema raw = Success data →
  ∃ p l o src,
    parsePage (raw_page raw) = Some p ∧ parseLimit (raw_limit raw) = Some l ∧
    parseOrder (raw_order raw) = Some o ∧ parseSource (raw_source raw) = Some src ∧
    data = {| page := Some p; limit := Some l;
              sort := Some (default "created_at" (raw_sort raw));
              order := Some o; source := src |}.
Proof.
  unfold recipeQuerySchema, parseSort.
  destruct (parsePage _) as [p|], (parseLimit _) as [l|],
           (parseOrder _) as [o|], (parseSource _) as [src|]; try done.
  intros [= <-]. by exists p, l, o, src.
Qed.

Lemma schema_limit_Failure raw :
  parseLimit (raw_limit raw) = None →
  ∃ issues, recipeQuerySchema raw = Failure issues ∧ "limit" ∈ issues.
Proof.
  intros Hl. unfold recipeQuerySchema, parseSort. rewrite Hl.
  destruct (parsePage _), (parseOrder _), (parseSource _);
    eexists; (split; [reflexivity|]); simpl;
    repeat first [apply list_elem_of_here | apply list_elem_of_further].
Qed.

Lemma ltb_bool_decide a b : (a <? b) = bool_decide (a < b).
Proof.
  destruct (Z.ltb_spec a b);
    [by rewrite bool_decide_eq_true_2|by rewrite bool_decide_eq_false_2; [|lia]].
Qed.

(** C4.  A request whose [limit] is above 100 fails validation on the
    path [limit], and the handler answers the failure instead of
    querying with a clamped value.  In a request that validates, an
    omitted [page], [limit], [sort] or [order] is 1, 20, [created_at]
    or [desc], and the service applies the same defaults to parameters
    it is not given.  For a request that validates, [total_items] is
    the number of recipes of the user that pass the optional source
    filter, [total_pages] is the ceiling of [total_items / limit],
    [has_next] is [page < total_pages] and [has_previous] is
    [page > 1]. *)
Theorem list_request_contract userId st :
  (∀ raw q,
     raw_limit raw = Some (Finite q) → (100 < q)%Q →
     ∃ issues,
       recipeQuerySchema raw = Failure issues ∧ "limit" ∈ issues ∧
       listRecipes localeCompare userId raw st = inl issues) ∧
  (∀ raw data,
     recipeQuerySchema raw = Success data →
     (raw_page raw = None → page data = Some 1) ∧
     (raw_limit raw = None → limit data = Some 20) ∧
     (raw_sort raw = None → sort data = Some "created_at") ∧
     (raw_order raw = None → order data = Some desc)) ∧
  (∀ src,
     getRecipes localeCompare userId
       {| page := None; limit := None; sort := None; order := None; source := src |} st =
     getRecipes localeCompare userId
       {| page := Some 1; limit := Some 20; sort := Some "created_at";
          order := Some desc; source := src |} st) ∧
  (∀ raw data,
     recipeQuerySchema raw = Success data →
     ∃ p l,
       page data = Some p ∧ limit data = Some l ∧ 1 ≤ p ∧ 1 ≤ l ≤ 100 ∧
       listRecipes localeCompare userId raw st =
         inr (getRecipes localeCompare userId data st) ∧
       let meta := pagination (getRecipes localeCompare userId data st) in
       let matching := filterRecipes userId (source data) (MOCK_RECIPES st) in
       pg_page meta = p ∧ pg_limit meta = l ∧
       total_items meta = Z.of_nat (length matching) ∧
       (∀ r, r ∈ matching ↔
             r ∈ MOCK_RECIPES st ∧ r_user_id r = userId ∧
             ∀ s, source data = Some s → r_source r = s) ∧
       total_pages meta = ceilDiv (total_items meta) l ∧
       (total_pages meta - 1) * l < total_items meta ≤ total_pages meta * l ∧
       has_next meta = bool_decide (p < total_pages meta) ∧
       has_previous meta = bool_decide (1 < p)).
Proof.
  split_and!.
  - intros raw q Hraw Hq.
    destruct (schema_limit_Failure raw) as (issues & Hfail & Hin).
    { rewrite Hraw. by apply parseLimit_above. }
    exists issues. split_and!; [done..|]. unfold listRecipes. by rewrite Hfail.
  - intros raw data (p & l & o & src & Hp & Hl & Ho & Hsrc & ->)%schema_Success.
    cbn [page limit sort order]. split_and!; intros Hnone; rewrite Hnone in *.
    + by rewrite <- Hp.
    + by rewrite <- Hl.
    + done.
    + by rewrite <- Ho.
  - done.
  - intros raw data Hok.
    pose proof (schema_Success raw data Hok)
      as (p & l & o & src & Hp & Hl & Ho & Hsrc & ->).
    apply parsePage_positive in Hp. apply parseLimit_range in Hl.
    exists p, l. split_and!; [done|done|lia|lia|lia|..].
    { unfold listRecipes. by rewrite Hok. }
    unfold getRecipes.
    cbn [page limit sort order source default pagination pg_page pg_limit
         total_items total_pages has_next has_previous from_option id].
    rewrite length_sortBy. split_and!; try done.
    + apply filterRecipes_spec.
    + apply ceilDiv_spec. lia.
    + apply ceilDiv_spec. lia.
    + apply ltb_bool_decide.
    + apply ltb_bool_decide.
Qed.

(** C10.  When the validated page lies beyond the last page of the
    filtered collection, the request succeeds with no recipes,
    [has_next] is [false], and [has_previous] is [true] exactly when
    the page is above 1. *)
Theorem page_beyond_last userId raw data st :
  recipeQuerySchema raw = Success data →
  let response := getRecipes localeCompare userId data st in
  total_pages (pagination response) < pg_page (pagination response) →
  listRecipes localeCompare userId raw st = inr response ∧
  recipes response = [] ∧
  has_next (pagination response) = false ∧
  has_previous (pagination response) =
    bool_decide (1 < pg_page (pagination response)).
Proof.
  intros Hok.
  pose proof (schema_Success raw data Hok)
    as (p & l & o & src & Hp & Hl & Ho & Hsrc & ->).
  apply parsePage_positive in Hp. apply parseLimit_range in Hl.
  unfold listRecipes. rewrite Hok. clear Hok. unfold getRecipes.
  cbn [page limit sort order source default pagination pg_page pg_limit
       total_items total_pages has_next has_previous recipes from_option id].
  set (sorted := sortBy _ _).
  pose proof (ceilDiv_spec (Z.of_nat (length sorted)) l) as Hceil.
  intros Hbeyond. split_and!.
  - done.
  - apply slice_beyond; nia.
  - apply Z.ltb_ge. lia.
  - apply ltb_bool_decide.
Qed.

End Pagination.

(** *** Instances *)

Section PaginationInstances.
Import RecipeService Validation.
Local Open Scope Z_scope.

Lemma list_request_contract_witness :
  (∃ issues,
     recipeQuerySchema limit101 = Failure issues ∧ "limit" ∈ issues ∧
     listRecipes codeUnitCompare "default-user-id" limit101
       (initialStore "default-user-id") = inl issues) ∧
  (sort (parsed page2of2) = Some "created_at" ∧
   order (parsed page2of2) = Some desc) ∧
  (∃ meta,
     meta = pagination (getRecipes codeUnitCompare "default-user-id" (parsed page2of2)
                          (initialStore "default-user-id")) ∧
     total_items meta = 3 ∧
     total_pages meta = ceilDiv 3 2 ∧
     has_next meta = bool_decide (2 < total_pages meta) ∧
     has_previous meta = bool_decide (1 < 2)).
Proof.
  destruct (list_request_contract codeUnitCompare "default-user-id"
              (initialStore "default-user-id")) as (Hreject & Hdefault & _ & Hmeta).
  split_and!.
  - apply (Hreject limit101 (101 # 1)%Q); reflexivity.
  - apply (Hdefault page2of2 (parsed page2of2)); reflexivity.
  - apply (Hdefault page2of2 (parsed page2of2)); reflexivity.
  - destruct (Hmeta page2of2 (parsed page2of2) eq_refl)
      as (p & l & Hp & Hl & _ & _ & _ & _ & _ & Hitems & _ & Hpages & _ & Hnext & Hprev).
    injection Hp as <-. injection Hl as <-.
    eexists. split; [reflexivity|]. split_and!.
    + exact Hitems.
    + exact Hpages.
    + exact Hnext.
    + exact Hprev.
Defined.

Lemma page_beyond_last_witness :
  let response := getRecipes codeUnitCompare "default-user-id" (parsed page5)
                    (initialStore "default-user-id") in
  listRecipes codeUnitCompare "default-user-id" page5
    (initialStore "default-user-id") = inr response ∧
  recipes response = [] ∧
  has_next (pagination response) = false ∧
  has_previous (pagination response) = bool_decide (1 < 5).
Proof.
  apply (page_beyond_last codeUnitCompare "default-user-id" page5 (parsed page5)
           (initialStore "default-user-id")); reflexivity.
Defined.

End PaginationInstances.

(** * Further properties of the code *)

(** ** The recipe collection, continued *)

Section StoreComposition.
Import RecipeService.

Variable DEFAULT_USER_ID : string.

Lemma reachable_counter st :
  reachable DEFAULT_USER_ID st →
  (4 ≤ mockRecipeCounter st)%nat ∧
  (length (MOCK_RECIPES st) < mockRecipeCounter st)%nat.
Proof.
  induction 1 as [|st st' _ [IH1 IH2] Hstep]; [simpl; lia|].
  destruct Hstep as [command userId createdNow updatedNow st
                    |id userId command now st|id userId st].
  - simpl. rewrite length_app. simpl. lia.
  - unfold updateRecipe. destruct (list_find _ _) as [[i old]|]; [|done].
    simpl. by rewrite length_insert.
  - unfold deleteRecipe. destruct (list_find _ _) as [[i old]|]; [|done].
    simpl. pose proof (sublist_length _ _ (sublist_delete (MOCK_RECIPES st) i)). lia.
Qed.

(** X1.  Whatever requests were served, the identifiers in the
    collection are pairwise distinct, each was issued from a counter
    value below the current one, the counter never falls below its
    initial 4, and the collection holds fewer recipes than the counter
    says. *)
Theorem reachable_ids_distinct st :
  reachable DEFAULT_USER_ID st →
  NoDup (r_id <$> MOCK_RECIPES st) ∧
  (∀ r, r ∈ MOCK_RECIPES st →
        ∃ k : nat, (k < mockRecipeCounter st)%nat ∧ r_id r = mockId k) ∧
  (4 ≤ mockRecipeCounter st)%nat ∧
  (length (MOCK_RECIPES st) < mockRecipeCounter st)%nat.
Proof.
  intros Hreach. destruct (reachable_wellFormed _ _ Hreach) as [Hnd Hfresh].
  destruct (reachable_counter _ Hreach). done.
Qed.

(** Replacing an entry that a predicate rejects by another one it rejects
    does not change what the predicate finds. *)
Lemma find_insert_other {A} (P : A → Prop) `{∀ x, Decision (P x)} (l : list A) i x y :
  l !! i = Some x → ¬ P x → ¬ P y →
  snd <$> list_find P (<[i:=y]> l) = snd <$> list_find P l.
Proof.
  revert i. induction l as [|z l IH]; intros [|i] Hi Hx Hy; simplify_eq/=.
  - rewrite !decide_False by done. done.
  - destruct (decide (P z)); [done|].
    specialize (IH i Hi Hx Hy). destruct (list_find P (<[i:=y]> l)) as [[? ?]|],
      (list_find P l) as [[? ?]|]; simplify_eq/=; done.
Qed.

Lemma find_delete_other {A} (P : A → Prop) `{∀ x, Decision (P x)} (l : list A) i x :
  l !! i = Some x → ¬ P x →
  snd <$> list_find P (delete i l) = snd <$> list_find P l.
Proof.
  revert i. induction l as [|z l IH]; intros [|i] Hi Hx; simplify_eq/=.
  - rewrite decide_False by done.
    by destruct (list_find P l) as [[? ?]|].
  - destruct (decide (P z)); [done|].
    specialize (IH i Hi Hx). destruct (list_find P (delete i l)) as [[? ?]|],
      (list_find P l) as [[? ?]|]; simplify_eq/=; done.
Qed.

Lemma find_app_other {A} (P : A → Prop) `{∀ x, Decision (P x)} (l : list A) y :
  ¬ P y → snd <$> list_find P (l ++ [y]) = snd <$> list_find P l.
Proof.
  intros Hy. induction l as [|z l IH]; simpl.
  - by rewrite decide_False.
  - destruct (decide (P z)); [done|].
    destruct (list_find P (l ++ [y])) as [[? ?]|], (list_find P l) as [[? ?]|];
      simplify_eq/=; done.
Qed.

(** X2.  After a successful [updateRecipe], in any store,
    [getRecipeById] with the same identifier and owner answers the
    updated recipe, every lookup under another identifier or owner
    answers what it answered before, and the collection keeps its
    identifiers in their order. *)
Theorem update_then_get st id userId command now updated st' :
  updateRecipe id userId command now st = (Some updated, st') →
  getRecipeById id userId st' = Some updated ∧
  (∀ id' userId',
     (id', userId') ≠ (id, userId) →
     getRecipeById id' userId' st' = getRecipeById id' userId' st) ∧
  r_id <$> MOCK_RECIPES st' = r_id <$> MOCK_RECIPES st ∧
  mockRecipeCounter st' = mockRecipeCounter st.
Proof.
  unfold updateRecipe.
  destruct (list_find _ _) as [[i old]|] eqn:Hfind; [|done].
  intros [= <- <-].
  pose proof Hfind as (Hi & [Hid Hu] & Hfirst)%list_find_Some.
  unfold getRecipeById. cbn [MOCK_RECIPES mockRecipeCounter].
  set (updated := applyUpdate old command now).
  split_and!.
  - assert (list_find (matches id userId) (<[i:=updated]> (MOCK_RECIPES st))
            = Some (i, updated)) as ->; [|done].
    apply list_find_Some. split_and!.
    + apply list_lookup_insert_eq. by eapply lookup_lt_Some.
    + by split.
    + intros j y Hj Hlt. rewrite list_lookup_insert_ne in Hj by lia. eauto.
  - intros id' userId' Hne.
    apply (find_insert_other (matches id' userId') _ i old updated Hi).
    + intros [? ?]. apply Hne. congruence.
    + intros [? ?]. apply Hne. simpl in *. congruence.
  - rewrite list_fmap_insert. apply list_insert_id.
    by rewrite list_lookup_fmap, Hi.
  - done.
Qed.

(** X3.  After a successful [deleteRecipe] in a reachable store,
    [getRecipeById] with the same identifier answers [null] for every
    owner, every lookup under another identifier answers what it answered
    before, and the collection is one recipe shorter. *)
Theorem delete_then_get st id userId st' :
  reachable DEFAULT_USER_ID st →
  deleteRecipe id userId st = (true, st') →
  (∀ userId', getRecipeById id userId' st' = None) ∧
  (∀ id' userId',
     id' ≠ id → getRecipeById id' userId' st' = getRecipeById id' userId' st) ∧
  S (length (MOCK_RECIPES st')) = length (MOCK_RECIPES st) ∧
  mockRecipeCounter st' = mockRecipeCounter st.
Proof.
  intros [Hnd _]%reachable_wellFormed. unfold deleteRecipe.
  destruct (list_find _ _) as [[i old]|] eqn:Hfind; [|done].
  intros [= <-].
  pose proof (find_matches _ _ _ _ _ Hfind) as (Hi & Hid & Hu).
  unfold getRecipeById. cbn [MOCK_RECIPES mockRecipeCounter]. split_and!.
  - intros userId'.
    assert (list_find (matches id userId') (delete i (MOCK_RECIPES st)) = None)
      as ->; [|done].
    apply list_find_None, Forall_forall. intros x Hx [Hxid _].
    apply (delete_forgets_id _ _ _ _ Hnd Hi Hx). congruence.
  - intros id' userId' Hne.
    apply (find_delete_other (matches id' userId') _ i old Hi).
    intros [? ?]. congruence.
  - rewrite length_delete by (by eexists).
    pose proof (lookup_lt_Some _ _ _ Hi). lia.
  - done.
Qed.

(** X4.  [createRecipe] in a reachable store appends one recipe under
    an identifier no stored recipe has, and every lookup under another
    identifier answers what it answered before. *)
Theorem create_is_fresh_append st command userId createdNow updatedNow :
  reachable DEFAULT_USER_ID st →
  let created := (createRecipe command userId createdNow updatedNow st).1 in
  let st' := (createRecipe command userId createdNow updatedNow st).2 in
  MOCK_RECIPES st' = MOCK_RECIPES st ++ [created] ∧
  mockRecipeCounter st' = S (mockRecipeCounter st) ∧
  (∀ r, r ∈ MOCK_RECIPES st → r_id r ≠ r_id created) ∧
  (∀ id' userId',
     id' ≠ r_id created →
     getRecipeById id' userId' st' = getRecipeById id' userId' st).
Proof.
  intros [_ Hfresh]%reachable_wellFormed. cbn [createRecipe fst snd].
  split_and!; [done|done|..].
  - intros r Hr Heq. destruct (Hfresh r Hr) as (k & Hk & Hid).
    cbn [r_id] in Heq. rewrite Hid in Heq. apply mockId_inj in Heq. lia.
  - intros id' userId' Hne. unfold getRecipeById. cbn [MOCK_RECIPES].
    apply find_app_other. intros [Hid _]. apply Hne. by rewrite <- Hid.
Qed.

End StoreComposition.

Section StoreCompositionInstances.
Import RecipeService.

Lemma reachable_ids_distinct_witness :
  NoDup (r_id <$> MOCK_RECIPES storeWithAlice) ∧
  (4 ≤ mockRecipeCounter storeWithAlice)%nat ∧
  (length (MOCK_RECIPES storeWithAlice) < mockRecipeCounter storeWithAlice)%nat.
Proof.
  destruct (reachable_ids_distinct "default-user-id" storeWithAlice
              storeWithAlice_reachable) as (Hnd & _ & Hc & Hl).
  split_and!; assumption.
Defined.

Lemma update_then_get_witness :
  ∃ updated st',
    updateRecipe (r_id aliceToast) "alice" retitle "2025-01-02T08:30:00.000Z"
      storeWithAlice = (Some updated, st') ∧
    getRecipeById (r_id aliceToast) "alice" st' = Some updated ∧
    getRecipeById "550e8400-e29b-41d4-a716-446655440001" "default-user-id" st' =
    getRecipeById "550e8400-e29b-41d4-a716-446655440001" "default-user-id" storeWithAlice.
Proof.
  eexists _, _. split; [reflexivity|].
  destruct (update_then_get storeWithAlice (r_id aliceToast) "alice" retitle
              "2025-01-02T08:30:00.000Z" _ _ eq_refl) as (Hget & Hother & _).
  split; [exact Hget|]. apply Hother. discriminate.
Defined.

Lemma delete_then_get_witness :
  ∃ st',
    deleteRecipe (r_id aliceToast) "alice" storeWithAlice = (true, st') ∧
    getRecipeById (r_id aliceToast) "alice" st' = None ∧
    S (length (MOCK_RECIPES st')) = length (MOCK_RECIPES storeWithAlice).
Proof.
  eexists. split; [reflexivity|].
  destruct (delete_then_get "default-user-id" storeWithAlice (r_id aliceToast) "alice" _
              storeWithAlice_reachable eq_refl) as (Hget & _ & Hlen & _).
  split; [apply Hget|exact Hlen].
Defined.

Lemma create_is_fresh_append_witness :
  r_id aliceToast ≠ r_id (createRecipe toast "alice" "2025-01-03T00:00:00.000Z"
                            "2025-01-03T00:00:00.000Z" storeWithAlice).1.
Proof.
  apply (create_is_fresh_append "default-user-id" storeWithAlice toast "alice"
           "2025-01-03T00:00:00.000Z" "2025-01-03T00:00:00.000Z"
           storeWithAlice_reachable).
  exact aliceToast_stored.
Defined.

End StoreCompositionInstances.

(** ** Listing and pagination, continued *)

Section Paging.
Import RecipeService Validation.
Local Open Scope Z_scope.

Variable localeCompare : string → string → Z.

Lemma filterRecipes_app userId source l1 l2 :
  filterRecipes userId source (l1 ++ l2) =
  (filterRecipes userId source l1 ++ filterRecipes userId source l2)%list.
Proof.
  unfold filterRecipes. destruct source; by rewrite !filter_app.
Qed.

(** One page of a list, for a page and a limit of at least 1. *)
Lemma slice_page {A} (l : list A) (p : nat) (L : Z) :
  (1 ≤ p)%nat → 1 ≤ L →
  slice l ((Z.of_nat p - 1) * L) ((Z.of_nat p - 1) * L + L) =
  take (Z.to_nat L) (drop ((p - 1) * Z.to_nat L) l).
Proof.
  intros Hp HL. unfold slice.
  destruct (Z.ltb_spec ((Z.of_nat p - 1) * L) 0); [nia|].
  destruct (Z.ltb_spec ((Z.of_nat p - 1) * L + L) 0); [nia|].
  destruct (Z.le_gt_cases ((Z.of_nat p - 1) * L) (Z.of_nat (length l))) as [Hle|Hgt].
  - rewrite (Z.min_l _ _ Hle).
    replace (Z.to_nat ((Z.of_nat p - 1) * L)) with ((p - 1) * Z.to_nat L)%nat by nia.
    destruct (Z.le_gt_cases ((Z.of_nat p - 1) * L + L) (Z.of_nat (length l))).
    + rewrite Z.min_l by done. f_equal. lia.
    + rewrite Z.min_r by lia. rewrite !take_ge; [done|rewrite length_drop; nia..].
  - rewrite !Z.min_r by lia. rewrite Z.sub_diag. simpl.
    rewrite (drop_ge l ((p - 1) * Z.to_nat L)) by nia. by destruct (Z.to_nat L).
Qed.

(** Consecutive pages, put end to end, are the beginning of the list. *)
Lemma pages_concat {A} (l : list A) (n m : nat) :
  mjoin ((λ p : nat, take n (drop ((p - 1) * n) l)) <$> seq 1 m) = take (m * n) l.
Proof.
  induction m as [|m IH]; [done|].
  rewrite seq_S, fmap_app, join_app, IH. simpl. rewrite app_nil_r.
  replace (m - 0)%nat with m by lia. rewrite take_take_drop. f_equal. lia.
Qed.

Lemma getRecipes_recipes userId params st :
  recipes (getRecipes localeCompare userId params st) =
  slice (listing localeCompare userId params st)
    ((default 1 (page params) - 1) * default 20 (limit params))
    ((default 1 (page params) - 1) * default 20 (limit params)
     + default 20 (limit params)).
Proof. reflexivity. Qed.

Lemma getRecipes_total userId params st :
  total_items (pagination (getRecipes localeCompare userId params st)) =
  Z.of_nat (length (listing localeCompare userId params st)).
Proof. reflexivity. Qed.

(** X5.  Saving a recipe raises the [total_items] of a listing by one
    when the recipe belongs to the listing user and passes the source
    filter of the listing, and leaves it as it was otherwise. *)
Theorem list_counts_created userId params command owner createdNow updatedNow st :
  total_items (pagination (getRecipes localeCompare userId params
                 (createRecipe command owner createdNow updatedNow st).2)) =
  total_items (pagination (getRecipes localeCompare userId params st)) +
  (if decide (owner = userId ∧
              (source params = None ∨ source params = Some (c_source command)))
   then 1 else 0).
Proof.
  rewrite !getRecipes_total. unfold listing. rewrite !length_sortBy.
  cbn [createRecipe snd MOCK_RECIPES]. rewrite filterRecipes_app, length_app.
  rewrite Nat2Z.inj_add. f_equal.
  unfold filterRecipes. rewrite filter_cons, filter_nil. cbn [r_user_id].
  destruct (decide (owner = userId)) as [->|Hne].
  - destruct (source params) as [src|].
    + rewrite filter_cons, filter_nil. cbn [r_source].
      destruct (decide (c_source command = src)) as [->|Hsrc].
      * rewrite decide_True by auto. done.
      * rewrite decide_False; [done|]. intros [_ [?|[= ?]]]; done.
    + rewrite decide_True by auto. done.
  - rewrite decide_False by (by intros [? _]). by destruct (source params).
Qed.

(** X6.  For a limit [L] of at least 1, page [p] of a listing holds the
    [L] recipes behind the first [(p - 1) * L] of the sorted, filtered
    collection, or as many as are left; it never holds more than [L];
    and the pages 1 to [total_pages], put end to end, are the whole
    sorted, filtered collection, so their sizes add up to
    [total_items]. *)
Theorem pages_partition userId params L st :
  limit params = Some L → 1 ≤ L →
  let all := listing localeCompare userId params st in
  let pageOf (p : nat) :=
    recipes (getRecipes localeCompare userId (pageRequest params p) st) in
  let meta := pagination (getRecipes localeCompare userId params st) in
  (∀ p : nat, (1 ≤ p)%nat →
     pageOf p = take (Z.to_nat L) (drop ((p - 1) * Z.to_nat L) all) ∧
     (length (pageOf p) ≤ Z.to_nat L)%nat) ∧
  mjoin (pageOf <$> seq 1 (Z.to_nat (total_pages meta))) = all ∧
  Z.of_nat (length (mjoin (pageOf <$> seq 1 (Z.to_nat (total_pages meta))))) =
    total_items meta.
Proof.
  intros HL Hpos all pageOf meta.
  assert (Hpage : ∀ p : nat, (1 ≤ p)%nat →
            pageOf p = take (Z.to_nat L) (drop ((p - 1) * Z.to_nat L) all)).
  { intros p Hp. unfold pageOf. rewrite getRecipes_recipes.
    cbn [pageRequest page limit default from_option id]. rewrite HL.
    cbn [default from_option id].
    change (listing localeCompare userId (pageRequest params p) st) with all.
    by apply slice_page. }
  assert (Hall : mjoin (pageOf <$> seq 1 (Z.to_nat (total_pages meta))) = all).
  { rewrite <- (take_ge all (Z.to_nat (total_pages meta) * Z.to_nat L)).
    - rewrite <- pages_concat. f_equal. apply list_fmap_ext.
      intros i p Hp%lookup_seq. apply Hpage. lia.
    - unfold meta, getRecipes. cbn [pagination total_pages]. rewrite HL.
      cbn [default from_option id]. fold (listing localeCompare userId params st).
      fold all. pose proof (ceilDiv_spec (Z.of_nat (length all)) L). nia. }
  split_and!.
  - intros p Hp. split; [by apply Hpage|].
    rewrite Hpage by done. rewrite length_take. lia.
  - exact Hall.
  - rewrite Hall. by unfold meta; rewrite getRecipes_total.
Qed.

(** X7.  For a page and a limit of at least 1, [has_next] is [true]
    exactly when recipes lie behind the current page, and then the
    current page is full; the page holds a recipe exactly when fewer than
    [total_items] recipes lie before it. *)
Theorem has_next_iff_more userId params p L st :
  page params = Some p → limit params = Some L → 1 ≤ p → 1 ≤ L →
  let response := getRecipes localeCompare userId params st in
  (has_next (pagination response) = true ↔
     p * L < total_items (pagination response)) ∧
  (has_next (pagination response) = true →
     Z.of_nat (length (recipes response)) = L) ∧
  (recipes response ≠ [] ↔ (p - 1) * L < total_items (pagination response)).
Proof.
  intros Hp HL Hp1 HL1 response.
  assert (Hrec : recipes response =
            take (Z.to_nat L)
              (drop ((Z.to_nat p - 1) * Z.to_nat L) (listing localeCompare userId params st))).
  { unfold response. rewrite getRecipes_recipes, Hp, HL.
    cbn [default from_option id].
    rewrite <- (Z2Nat.id p) at 1 2 by lia. apply slice_page; lia. }
  assert (Htot : total_items (pagination response) =
                 Z.of_nat (length (listing localeCompare userId params st)))
    by apply getRecipes_total.
  assert (Hnext : has_next (pagination response) = true ↔
                  p * L < total_items (pagination response)).
  { unfold response, getRecipes. cbn [pagination has_next total_items].
    rewrite Hp, HL. cbn [default from_option id].
    fold (listing localeCompare userId params st).
    pose proof (ceilDiv_spec (Z.of_nat (length (listing localeCompare userId params st))) L).
    rewrite Z.ltb_lt. nia. }
  split_and!.
  - exact Hnext.
  - intros Hn%Hnext. rewrite Hrec, length_take, length_drop. nia.
  - rewrite Htot, Hrec. split.
    + intros Hne. destruct (Z.lt_ge_cases ((p - 1) * L)
        (Z.of_nat (length (listing localeCompare userId params st)))); [done|].
      destruct Hne. rewrite drop_ge by nia. by destruct (Z.to_nat L).
    + intros Hlt Hnil. apply (f_equal length) in Hnil.
      rewrite length_take, length_drop in Hnil. simpl in Hnil. nia.
Qed.

(** X8.  Whatever the parameters, every recipe [getRecipes] answers is
    stored, belongs to the requesting user and, under a source filter,
    has that source. *)
Theorem listing_scoped userId params st r :
  r ∈ recipes (getRecipes localeCompare userId params st) →
  r ∈ MOCK_RECIPES st ∧ r_user_id r = userId ∧
  ∀ s, source params = Some s → r_source r = s.
Proof.
  rewrite getRecipes_recipes. unfold slice.
  intros Hr%subseteq_take%subseteq_drop. unfold listing in Hr.
  rewrite sortBy_Permutation in Hr. by apply filterRecipes_spec in Hr.
Qed.

Lemma insertBy_sorted {A} (cmp : A → A → Z) x l :
  consistent cmp →
  StronglySorted (λ a b, cmp a b ≤ 0) l →
  StronglySorted (λ a b, cmp a b ≤ 0) (insertBy cmp x l).
Proof.
  intros [Htotal Htrans]. induction 1 as [|y l Hl IH Hy]; simpl.
  - repeat constructor.
  - destruct (Z.ltb_spec 0 (cmp x y)) as [Hgt|Hle].
    + constructor; [done|]. rewrite insertBy_Permutation. constructor; auto.
    + constructor; [by constructor|]. constructor; [done|].
      eapply Forall_impl; [exact Hy|]. intros z Hz. by eapply Htrans.
Qed.

Lemma sortBy_sorted {A} (cmp : A → A → Z) l :
  consistent cmp → StronglySorted (λ a b, cmp a b ≤ 0) (sortBy cmp l).
Proof.
  intros Hc. induction l as [|x l IH]; simpl; [constructor|].
  by apply insertBy_sorted.
Qed.

Lemma compareRecipes_consistent sort order :
  consistent localeCompare → consistent (compareRecipes localeCompare sort order).
Proof.
  intros [Htotal Htrans]. unfold compareRecipes. split.
  - intros a b. destruct (stringProperty a sort), (stringProperty b sort),
      order; try lia; apply Htotal.
  - intros a b c.
    destruct (stringProperty a sort) as [av|] eqn:Ha,
             (stringProperty b sort) as [bv|] eqn:Hb,
             (stringProperty c sort) as [cv|] eqn:Hc, order; try lia;
      try (by apply Htrans);
      try (intros H1 H2; by apply (Htrans _ bv));
      unfold stringProperty in *; repeat case_decide; done.
Qed.

(** X9.  When the collation orders (see [consistent]), every page
    [getRecipes] answers is sorted by the comparator built from the sort
    field and the order: no recipe stands before one it should follow. *)
Theorem listing_sorted userId params st :
  consistent localeCompare →
  StronglySorted
    (λ a b, compareRecipes localeCompare (default "created_at" (sort params))
              (default desc (order params)) a b ≤ 0)
    (recipes (getRecipes localeCompare userId params st)).
Proof.
  intros Hc. rewrite getRecipes_recipes. unfold slice.
  set (all := listing localeCompare userId params st).
  assert (Hall : StronglySorted
            (λ a b, compareRecipes localeCompare (default "created_at" (sort params))
                      (default desc (order params)) a b ≤ 0) all)
    by (apply sortBy_sorted, compareRecipes_consistent, Hc).
  match goal with |- context [take ?n (drop ?k all)] =>
    rewrite <- (take_drop k all) in Hall; apply StronglySorted_app_1_r in Hall;
    rewrite <- (take_drop n (drop k all)) in Hall;
    by apply StronglySorted_app_1_l in Hall
  end.
Qed.

Lemma sortBy_never_greater {A} (cmp : A → A → Z) l :
  (∀ a b, cmp a b ≤ 0) → sortBy cmp l = l.
Proof.
  intros Hcmp. induction l as [|x l IH]; simpl; [done|]. rewrite IH.
  destruct l as [|y l]; simpl; [done|].
  destruct (Z.ltb_spec 0 (cmp x y)); [|done]. specialize (Hcmp x y). lia.
Qed.

(** X10.  Sorting by a name under which a recipe holds no string
    ([ingredients], [preparation_steps], any unknown name) sorts
    nothing: the page is cut from the filtered collection in the order
    in which the recipes were stored, whatever the order parameter and
    the collation. *)
Theorem sort_by_other_property userId params name st :
  sort params = Some name → name ∉ stringProperties →
  listing localeCompare userId params st =
    filterRecipes userId (source params) (MOCK_RECIPES st) ∧
  recipes (getRecipes localeCompare userId params st) =
    slice (filterRecipes userId (source params) (MOCK_RECIPES st))
      ((default 1 (page params) - 1) * default 20 (limit params))
      ((default 1 (page params) - 1) * default 20 (limit params)
       + default 20 (limit params)).
Proof.
  intros Hsort Hname.
  assert (Hl : listing localeCompare userId params st =
               filterRecipes userId (source params) (MOCK_RECIPES st)).
  { unfold listing. apply sortBy_never_greater. intros a b.
    unfold compareRecipes. rewrite Hsort. cbn [default from_option id].
    assert (stringProperty a name = None) as ->; [|done].
    unfold stringProperty, stringProperties in *.
    repeat case_decide; try done; subst; destruct Hname;
      repeat first [apply list_elem_of_here | apply list_elem_of_further]. }
  split; [done|]. by rewrite getRecipes_recipes, Hl.
Qed.

End Paging.

Section PagingInstances.
Import RecipeService Validation.
Local Open Scope Z_scope.

Lemma lengthCompare_consistent : consistent lengthCompare.
Proof. unfold consistent, lengthCompare. split; intros; lia. Defined.

Lemma pages_partition_witness :
  mjoin ((λ p : nat,
            recipes (getRecipes lengthCompare "default-user-id"
                       (pageRequest twoPerPage p) (initialStore "default-user-id")))
         <$> seq 1 (Z.to_nat (total_pages (pagination
                      (getRecipes lengthCompare "default-user-id" twoPerPage
                         (initialStore "default-user-id"))))))
  = listing lengthCompare "default-user-id" twoPerPage (initialStore "default-user-id").
Proof.
  apply (pages_partition lengthCompare "default-user-id" twoPerPage 2
           (initialStore "default-user-id")); [reflexivity|lia].
Defined.

Lemma has_next_iff_more_witness :
  let response := getRecipes lengthCompare "default-user-id" (pageRequest twoPerPage 1)
                    (initialStore "default-user-id") in
  (has_next (pagination response) = true ↔
     1 * 2 < total_items (pagination response)) ∧
  (has_next (pagination response) = true →
     Z.of_nat (length (recipes response)) = 2) ∧
  (recipes response ≠ [] ↔ (1 - 1) * 2 < total_items (pagination response)).
Proof.
  apply (has_next_iff_more lengthCompare "default-user-id" (pageRequest twoPerPage 1) 1 2
           (initialStore "default-user-id")); [reflexivity|reflexivity|lia|lia].
Defined.

Lemma listing_scoped_witness :
  aliceToast ∈ MOCK_RECIPES storeWithAlice ∧ r_user_id aliceToast = "alice" ∧
  ∀ s, source twoPerPage = Some s → r_source aliceToast = s.
Proof.
  apply (listing_scoped lengthCompare "alice" twoPerPage storeWithAlice aliceToast).
  vm_compute. apply list_elem_of_here.
Defined.

Lemma listing_sorted_witness :
  StronglySorted
    (λ a b, compareRecipes lengthCompare "title" asc a b ≤ 0)
    (recipes (getRecipes lengthCompare "default-user-id" twoPerPage
                (initialStore "default-user-id"))).
Proof.
  apply (listing_sorted lengthCompare "default-user-id" twoPerPage
           (initialStore "default-user-id") lengthCompare_consistent).
Defined.

Lemma sort_by_other_property_witness :
  listing codeUnitCompare "default-user-id"
    {| page := None; limit := None; sort := Some "ingredients"; order := Some asc;
       source := Some ai |} (initialStore "default-user-id") =
  filterRecipes "default-user-id" (Some ai) (MOCK_RECIPES (initialStore "default-user-id")).
Proof.
  apply (sort_by_other_property codeUnitCompare "default-user-id"
           {| page := None; limit := None; sort := Some "ingredients"; order := Some asc;
              source := Some ai |} "ingredients" (initialStore "default-user-id"));
    [reflexivity|].
  unfold stringProperties. intros H.
  repeat (apply elem_of_cons in H as [H|H]; [discriminate|]).
  by apply elem_of_nil in H.
Defined.

End PagingInstances.

(** ** The conflict checker and the sanitizer, continued *)

Section CheckerMore.
Import JsString AIService RecipeService.

(** X11.  Every warning of the checker is built by [warn] from the
    lower-cased form of a term of the avoidance list which the
    lower-cased form of some ingredient line contains: the checker never
    warns about anything else. *)
Theorem warnings_sound recipeIngredients profile w :
  w ∈ checkIngredientsAgainstProfile recipeIngredients profile →
  ∃ avoid a line,
    ingredients_to_avoid profile = Some avoid ∧ a ∈ avoid ∧
    line ∈ recipeIngredients ∧
    w = warn (toLowerCase a) ∧
    includes (toLowerCase line) (toLowerCase a) = true.
Proof.
  rewrite check_omap. intros (line & Hline & Hw)%list_elem_of_omap.
  unfold lineWarning in Hw.
  destruct (firstAvoided _ _) as [t|] eqn:Hfirst; [|done]. injection Hw as <-.
  apply firstAvoided_Some in Hfirst as (pre & post & Hterms & Hin & _).
  unfold avoidedTerms in Hterms.
  destruct (ingredients_to_avoid profile) as [avoid|] eqn:Havoid;
    [|by destruct pre].
  assert (Ht : t ∈ toLowerCase <$> avoid).
  { cbn [default from_option id] in Hterms. rewrite Hterms.
    apply elem_of_app. right. left. }
  apply list_elem_of_fmap in Ht as (a & -> & Ha).
  by exists avoid, a, line.
Qed.

(** X12.  The checker sees its arguments only through their lower-cased
    forms: two ingredient lists that agree after lower-casing, checked
    against profiles whose avoidance lists agree after lower-casing, get
    the same warnings. *)
Theorem checker_case_insensitive ingredients1 ingredients2 profile1 profile2 :
  toLowerCase <$> ingredients1 = toLowerCase <$> ingredients2 →
  avoidedTerms profile1 = avoidedTerms profile2 →
  checkIngredientsAgainstProfile ingredients1 profile1 =
  checkIngredientsAgainstProfile ingredients2 profile2.
Proof.
  intros Hings Hterms. rewrite !check_omap, <- Hterms. clear Hterms.
  revert ingredients2 Hings.
  induction ingredients1 as [|x l1 IH]; intros [|y l2] Hings; try done.
  rewrite !fmap_cons in Hings. injection Hings as Hx Hl.
  rewrite !omap_cons_case, (IH l2 Hl). unfold lineWarning. by rewrite Hx.
Qed.

(** X13.  An empty string in the avoidance list flags every ingredient
    line: the checker then answers as many warnings as there are
    lines. *)
Theorem empty_term_flags_every_line recipeIngredients profile avoid :
  ingredients_to_avoid profile = Some avoid → "" ∈ avoid →
  length (checkIngredientsAgainstProfile recipeIngredients profile) =
  length recipeIngredients.
Proof.
  intros Havoid Hin. rewrite check_omap.
  assert (Hsome : ∀ line, is_Some (lineWarning (avoidedTerms profile) line)).
  { intros line. unfold lineWarning. apply fmap_is_Some, firstAvoided_is_Some.
    exists "". split.
    - unfold avoidedTerms. rewrite Havoid.
      by apply (list_elem_of_fmap_2 toLowerCase) in Hin.
    - by destruct (toLowerCase line). }
  induction recipeIngredients as [|line rest IH]; [done|].
  rewrite omap_cons_case. destruct (Hsome line) as [w ->]. simpl. by rewrite IH.
Qed.

Lemma removeUnless_id keep s : allChars keep s = true → removeUnless keep s = s.
Proof.
  induction s as [|c s IH]; simpl; [done|].
  intros [-> Hs]%andb_true_iff. by rewrite IH.
Qed.

Lemma slice0_id n s : (String.length s ≤ n)%nat → slice0 n s = s.
Proof.
  revert n. induction s as [|c s IH]; intros [|n] Hn; simpl in *; try done; try lia.
  rewrite IH; [done|lia].
Qed.

Lemma trimStart_id s : startsClean s = true → trimStart s = s.
Proof. destruct s as [|c s]; simpl; [done|]. by intros ->%negb_true_iff. Qed.

Lemma trimEnd_id s : endsClean s = true → trimEnd s = s.
Proof.
  induction s as [|c s IH]; [done|]. cbn [trimEnd endsClean].
  destruct s as [|d s].
  - simpl. by intros ->%negb_true_iff.
  - intros Hs. rewrite (IH Hs). cbn [isEmpty]. by rewrite andb_false_r.
Qed.

(** X14.  Sanitization leaves a string as it is when the string has at
    most 100 code units, all of them allowed, and no white space at
    either end. *)
Theorem sanitize_identity_on_clean s :
  (String.length s ≤ 100)%nat →
  allChars allowed s = true →
  startsClean s = true → endsClean s = true →
  sanitizeIngredient s = s.
Proof.
  intros Hlen Hall Hstart Hend. unfold sanitizeIngredient, trim.
  rewrite trimStart_id, trimEnd_id, slice0_id by done.
  by apply removeUnless_id.
Qed.

Lemma warnings_sound_witness :
  ∃ avoid a line,
    Some ["NUT"; "Egg"] = Some avoid ∧ a ∈ avoid ∧
    line ∈ ["2 tbsp Peanut butter"; "1 egg"] ∧
    warn "egg" = warn (toLowerCase a) ∧
    includes (toLowerCase line) (toLowerCase a) = true.
Proof.
  apply (warnings_sound ["2 tbsp Peanut butter"; "1 egg"]
           {| p_user_id := "default-user-id";
              ingredients_to_avoid := Some ["NUT"; "Egg"] |} (warn "egg")).
  vm_compute. apply list_elem_of_further, list_elem_of_here.
Defined.

Lemma checker_case_insensitive_witness :
  checkIngredientsAgainstProfile ["2 TBSP Peanut Butter"]
    {| p_user_id := "default-user-id"; ingredients_to_avoid := Some ["NUT"] |} =
  checkIngredientsAgainstProfile ["2 tbsp peanut butter"]
    {| p_user_id := "default-user-id"; ingredients_to_avoid := Some ["nut"] |}.
Proof.
  apply checker_case_insensitive; reflexivity.
Defined.

Lemma empty_term_flags_every_line_witness :
  length (checkIngredientsAgainstProfile ["flour"; "water"; "salt"]
            {| p_user_id := "default-user-id";
               ingredients_to_avoid := Some ["nut"; ""] |}) =
  length ["flour"; "water"; "salt"].
Proof.
  apply (empty_term_flags_every_line ["flour"; "water"; "salt"]
           {| p_user_id := "default-user-id";
              ingredients_to_avoid := Some ["nut"; ""] |} ["nut"; ""]);
    [reflexivity|].
  apply list_elem_of_further, list_elem_of_here.
Defined.

Lemma sanitize_identity_on_clean_witness :
  sanitizeIngredient "rice, 2-3 cups." = "rice, 2-3 cups.".
Proof.
  apply sanitize_identity_on_clean; [simpl; lia|reflexivity..].
Defined.

End CheckerMore.

(** ** The schemas *)

Section SchemaFacts.
Import JsString AIService RecipeService Validation Schemas.

Lemma trim_idempotent s : trim (trim s) = trim s.
Proof.
  destruct (trim_spec s) as (_ & _ & _ & _ & _ & Hstart & Hend).
  unfold trim at 1. by rewrite trimStart_id, trimEnd_id.
Qed.

Lemma isEmpty_false s : isEmpty s = false ↔ s ≠ "".
Proof. by destruct s. Qed.

Lemma text_Valid maxLength path value t :
  text maxLength path value = Valid t ↔
  ∃ s, value = Some (JString s) ∧ t = trim s ∧ t ≠ "" ∧
       ∀ n, maxLength = Some n → (String.length t ≤ n)%nat.
Proof.
  unfold text. split.
  - destruct value as [[]|]; try done.
    destruct (isEmpty (trim s)) eqn:He; [done|]. apply isEmpty_false in He.
    destruct maxLength as [n|].
    + destruct (Nat.ltb_spec n (String.length (trim s))); [done|].
      intros [= <-]. exists s. split_and!; try done. intros ? [= <-]. lia.
    + intros [= <-]. exists s. by split_and!.
  - intros (s & -> & -> & Hne%isEmpty_false & Hmax). rewrite Hne.
    destruct maxLength as [n|]; [|done]. specialize (Hmax n eq_refl).
    destruct (Nat.ltb_spec n (String.length (trim s))); [lia|done].
Qed.

Lemma text_cases maxLength path value :
  (∃ t, text maxLength path value = Valid t) ∨
  text maxLength path value = Invalid [path].
Proof.
  unfold text. destruct value as [[]|]; auto.
  destruct (isEmpty _); auto. destruct maxLength; [|eauto].
  destruct (_ <? _)%nat; eauto.
Qed.

Lemma join_cons_eq {A} (x : list A) l : mjoin (x :: l) = (x ++ mjoin l)%list.
Proof. reflexivity. Qed.

(** The elements of an array, whatever the paths of their issues. *)
Lemma elements_Valid (path : nat → string) items l :
  mjoin (issuesOf <$> imap (λ i item, text None (path i) (Some item)) items) = [] ∧
  omap dataOf (imap (λ i item, text None (path i) (Some item)) items) = l ↔
  Forall2 trimmedText items l.
Proof.
  revert path l. induction items as [|item items IH]; intros path l.
  - simpl. split; [intros [_ <-]; constructor|by intros ->%Forall2_nil_inv_l].
  - rewrite imap_cons, fmap_cons, join_cons_eq, omap_cons_case. split.
    + intros [Hissues Hdata]. apply app_eq_nil in Hissues as [Hitem Hrest].
      destruct (text_cases None (path 0%nat) (Some item)) as [[t Ht]|Ht];
        rewrite Ht in *; [|done]. simpl in Hdata. subst l.
      constructor.
      * apply text_Valid in Ht as (s & [= ->] & -> & Hne & _). by exists s.
      * by apply (IH (path ∘ S)).
    + intros Hall. apply Forall2_cons_inv_l in Hall as (t & l' & (s & -> & -> & Hne) & Hrest & ->).
      assert (text None (path 0%nat) (Some (JString s)) = Valid (trim s)) as ->.
      { apply text_Valid. exists s. by split_and!. }
      destruct (proj2 (IH (path ∘ S) l') Hrest) as [Hissues Hdata].
      split; [exact Hissues|exact (f_equal (cons (trim s)) Hdata)].
Qed.

Lemma texts_Valid minLength path value l :
  texts minLength path value = Valid l ↔
  ∃ items, value = Some (JArray items) ∧ (minLength ≤ length items)%nat ∧
           Forall2 trimmedText items l.
Proof.
  unfold texts. split.
  - destruct value as [[]|]; try done.
    destruct (Nat.ltb_spec (length items) minLength); [done|].
    cbv iota. rewrite app_nil_l.
    destruct (mjoin _) eqn:Hissues; [|done]. intros [= <-].
    exists items. split_and!; [done..|].
    by apply (elements_Valid (λ i, path +:+ "." +:+ pretty i) items).
  - intros (items & -> & Hlen & Hall).
    apply (elements_Valid (λ i, path +:+ "." +:+ pretty i)) in Hall as [Hissues Hdata].
    destruct (Nat.ltb_spec (length items) minLength); [lia|].
    cbv iota. rewrite app_nil_l. by rewrite Hissues, Hdata.
Qed.

Lemma sourceTag_Valid path value source :
  sourceTag path value = Valid source ↔ value = Some (JString (sourceName source)).
Proof.
  unfold sourceTag. split.
  - destruct value as [[]|]; try done. repeat case_decide; try done;
      intros [= <-]; by subst.
  - intros ->. by destruct source.
Qed.

Lemma optional_Valid {A} (schema : option Json → Parsed A) value data :
  optional schema value = Valid data ↔
  (value = None ∧ data = None) ∨
  (∃ a, is_Some value ∧ schema value = Valid a ∧ data = Some a).
Proof.
  unfold optional. destruct value as [v|].
  - destruct (schema (Some v)) as [a|]; split.
    + intros [= <-]. right. by exists a.
    + intros [[? _]|(? & _ & [= <-] & ->)]; done.
    + done.
    + intros [[? _]|(? & _ & ? & _)]; done.
  - split; [intros [= <-]; by left|]. intros [[_ ->]|(? & [? ?] & _)]; done.
Qed.

Lemma generateRecipeSchema_Valid body ingredients :
  generateRecipeSchema body = Valid ingredients ↔
  ∃ members items,
    body = JObject members ∧
    member "ingredients" members = Some (JArray items) ∧
    (3 ≤ length items)%nat ∧
    Forall2 trimmedText items ingredients.
Proof.
  unfold generateRecipeSchema. split.
  - destruct body; try done.
    intros (items & ? & ? & ?)%texts_Valid. by exists members, items.
  - intros (members & items & -> & Hm & Hlen & Hall).
    apply texts_Valid. by exists items.
Qed.

(** X17.  [generateRecipeSchema] accepts a body exactly when it is an
    object whose [ingredients] is an array of at least three strings
    none of which is blank, and the data are those strings trimmed, in
    order. *)
Theorem generateRecipeSchema_accepts body ingredients :
  generateRecipeSchema body = Valid ingredients ↔
  ∃ members items,
    body = JObject members ∧
    member "ingredients" members = Some (JArray items) ∧
    (3 ≤ length items)%nat ∧
    Forall2 trimmedText items ingredients.
Proof. apply generateRecipeSchema_Valid. Qed.

Lemma createRecipeSchema_Valid body command :
  createRecipeSchema body = Valid command ↔
  ∃ members,
    body = JObject members ∧
    text (Some 255%nat) "title" (member "title" members) = Valid (c_title command) ∧
    texts 1 "ingredients" (member "ingredients" members) = Valid (c_ingredients command) ∧
    texts 1 "preparation_steps" (member "preparation_steps" members)
      = Valid (c_preparation_steps command) ∧
    sourceTag "source" (member "source" members) = Valid (c_source command).
Proof.
  unfold createRecipeSchema. split.
  - destruct body; try done.
    destruct (text _ _ _) eqn:Ht, (texts 1 "ingredients" _) eqn:Hi,
      (texts 1 "preparation_steps" _) eqn:Hp, (sourceTag _ _) eqn:Hs; try done.
    intros [= <-]. by exists members.
  - intros (members & -> & -> & -> & -> & ->). by destruct command.
Qed.

Lemma createRecipeSchema_fields body command :
  createRecipeSchema body = Valid command ↔
  ∃ members title ingredients steps,
    body = JObject members ∧
    member "title" members = Some (JString title) ∧
    c_title command = trim title ∧
    (1 ≤ String.length (trim title) ≤ 255)%nat ∧
    member "ingredients" members = Some (JArray ingredients) ∧
    (1 ≤ length ingredients)%nat ∧
    Forall2 trimmedText ingredients (c_ingredients command) ∧
    member "preparation_steps" members = Some (JArray steps) ∧
    (1 ≤ length steps)%nat ∧
    Forall2 trimmedText steps (c_preparation_steps command) ∧
    member "source" members = Some (JString (sourceName (c_source command))).
Proof.
  rewrite createRecipeSchema_Valid. split.
  - intros (members & -> & (title & Ht & Htitle & Hne & Hmax)%text_Valid
            & (ingredients & Hi & Hilen & Hiall)%texts_Valid
            & (steps & Hs & Hslen & Hsall)%texts_Valid & Hsrc%sourceTag_Valid).
    exists members, title, ingredients, steps. split_and!; try done.
    + rewrite <- Htitle. destruct (c_title command); [done|simpl; lia].
    + rewrite <- Htitle. by apply Hmax.
  - intros (members & title & ingredients & steps & -> & Ht & Htitle & [Hmin Hmax]
            & Hi & Hilen & Hiall & Hs & Hslen & Hsall & Hsrc).
    exists members. split_and!; [done|..].
    + apply text_Valid. exists title. split_and!; [done..| |].
      * rewrite Htitle. intros Heq. rewrite Heq in Hmin. simpl in Hmin. lia.
      * intros n [= <-]. by rewrite Htitle.
    + apply texts_Valid. by exists ingredients.
    + apply texts_Valid. by exists steps.
    + by apply sourceTag_Valid.
Qed.

(** X18.  [createRecipeSchema] accepts a body exactly when it is an
    object with a [title] string of 1 to 255 code units after trimming,
    [ingredients] and [preparation_steps] arrays of at least one string
    each, none blank, and [source] one of the strings ai and manual; the
    data are the trimmed texts and the source. *)
Theorem createRecipeSchema_accepts body command :
  createRecipeSchema body = Valid command ↔
  ∃ members title ingredients steps,
    body = JObject members ∧
    member "title" members = Some (JString title) ∧
    c_title command = trim title ∧
    (1 ≤ String.length (trim title) ≤ 255)%nat ∧
    member "ingredients" members = Some (JArray ingredients) ∧
    (1 ≤ length ingredients)%nat ∧
    Forall2 trimmedText ingredients (c_ingredients command) ∧
    member "preparation_steps" members = Some (JArray steps) ∧
    (1 ≤ length steps)%nat ∧
    Forall2 trimmedText steps (c_preparation_steps command) ∧
    member "source" members = Some (JString (sourceName (c_source command))).
Proof. apply createRecipeSchema_fields. Qed.

Lemma trimmedText_clean item t : trimmedText item t → cleanText t.
Proof. intros (s & -> & -> & Hne). split; [apply trim_idempotent|done]. Qed.

Lemma trimmedTexts_clean items l : Forall2 trimmedText items l → Forall cleanText l.
Proof. induction 1; constructor; eauto using trimmedText_clean. Qed.

Lemma cleanText_trimmed l : Forall cleanText l → Forall2 trimmedText (JString <$> l) l.
Proof.
  induction 1 as [|t l [Ht Hne] _ IH]; simpl; constructor; [|done].
  exists t. by rewrite Ht.
Qed.

Lemma acceptable_created body command :
  createRecipeSchema body = Valid command → acceptable command.
Proof.
  intros (members & title & ingredients & steps & -> & _ & Htitle & [Hmin Hmax]
          & _ & Hilen & Hiall & _ & Hslen & Hsall & _)%createRecipeSchema_fields.
  unfold acceptable, cleanText. rewrite Htitle. split_and!.
  - apply trim_idempotent.
  - intros Heq. rewrite Heq in Hmin. simpl in Hmin. lia.
  - done.
  - intros Heq. rewrite Heq in Hiall. apply Forall2_nil_inv_r in Hiall.
    subst. simpl in Hilen. lia.
  - by eapply trimmedTexts_clean.
  - intros Heq. rewrite Heq in Hsall. apply Forall2_nil_inv_r in Hsall.
    subst. simpl in Hslen. lia.
  - by eapply trimmedTexts_clean.
Qed.

Lemma createBody_accepted command :
  acceptable command → createRecipeSchema (createBody command) = Valid command.
Proof.
  intros ([Ht Hne] & Hlen & Hi & Hiall & Hs & Hsall).
  apply createRecipeSchema_fields.
  eexists _, (c_title command), (JString <$> c_ingredients command),
    (JString <$> c_preparation_steps command).
  split; [reflexivity|]. rewrite Ht, !length_fmap.
  split_and!; try done.
  - destruct (c_title command); [done|simpl; lia].
  - destruct (c_ingredients command); [done|simpl; lia].
  - by apply cleanText_trimmed.
  - destruct (c_preparation_steps command); [done|simpl; lia].
  - by apply cleanText_trimmed.
Qed.

(** X19.  What [createRecipeSchema] answers is a command it leaves as it
    is: its texts are trimmed and not empty, its title has at most 255
    code units, its lists are not empty; and every such command, sent as
    a body, is accepted unchanged.  Validating twice is validating
    once. *)
Theorem createRecipeSchema_roundtrip :
  (∀ body command, createRecipeSchema body = Valid command → acceptable command) ∧
  (∀ command, acceptable command →
              createRecipeSchema (createBody command) = Valid command) ∧
  (∀ body command,
     createRecipeSchema body = Valid command →
     createRecipeSchema (createBody command) = Valid command).
Proof.
  split_and!.
  - apply acceptable_created.
  - apply createBody_accepted.
  - intros body command H. by eapply createBody_accepted, acceptable_created.
Qed.

Lemma optional_text_field path value (t : option string) :
  optional (text (Some 255%nat) path) value = Valid t →
  (t = None ↔ value = None) ∧
  ∀ t', t = Some t' → cleanText t' ∧ (String.length t' ≤ 255)%nat.
Proof.
  intros [[-> ->]|(a & [v ->] & Ha & ->)]%optional_Valid; [done|].
  split; [done|]. intros t' [= <-].
  apply text_Valid in Ha as (s & _ & -> & Hne & Hmax).
  split; [split; [apply trim_idempotent|done]|by apply Hmax].
Qed.

Lemma optional_texts_field path value (l : option (list string)) :
  optional (texts 1 path) value = Valid l →
  (l = None ↔ value = None) ∧
  ∀ l', l = Some l' → l' ≠ [] ∧ Forall cleanText l'.
Proof.
  intros [[-> ->]|(a & [v ->] & Ha & ->)]%optional_Valid; [done|].
  split; [done|]. intros l' [= <-].
  apply texts_Valid in Ha as (items & _ & Hlen & Hall). split.
  - intros ->. apply Forall2_nil_inv_r in Hall. subst. simpl in Hlen. lia.
  - by eapply trimmedTexts_clean.
Qed.

(** X20.  [updateRecipeSchema] rejects, at the root, an object that has
    none of [title], [ingredients] and [preparation_steps].  A command it
    accepts carries exactly the fields the body has, at least one of
    them, each trimmed, not empty, the title of at most 255 code units
    and the lists with at least one element. *)
Theorem updateRecipeSchema_requires_field :
  (∀ members,
     member "title" members = None →
     member "ingredients" members = None →
     member "preparation_steps" members = None →
     updateRecipeSchema (JObject members) = Invalid [""]) ∧
  (∀ body command,
     updateRecipeSchema body = Valid command →
     (is_Some (u_title command) ∨ is_Some (u_ingredients command) ∨
      is_Some (u_preparation_steps command)) ∧
     (∃ members,
        body = JObject members ∧
        (u_title command = None ↔ member "title" members = None) ∧
        (u_ingredients command = None ↔ member "ingredients" members = None) ∧
        (u_preparation_steps command = None ↔
           member "preparation_steps" members = None)) ∧
     (∀ t, u_title command = Some t → cleanText t ∧ (String.length t ≤ 255)%nat) ∧
     (∀ l, u_ingredients command = Some l → l ≠ [] ∧ Forall cleanText l) ∧
     (∀ l, u_preparation_steps command = Some l → l ≠ [] ∧ Forall cleanText l)).
Proof.
  split.
  - intros members Ht Hi Hp. unfold updateRecipeSchema. by rewrite Ht, Hi, Hp.
  - intros body command. unfold updateRecipeSchema. destruct body; try done.
    destruct (optional (text _ _) _) as [t|] eqn:Ht; [|done].
    destruct (optional (texts 1 "ingredients") _) as [i|] eqn:Hi;
      [|by destruct t].
    destruct (optional (texts 1 "preparation_steps") _) as [p|] eqn:Hp;
      [|by destruct t, i].
    apply optional_text_field in Ht as [Ht1 Ht2].
    apply optional_texts_field in Hi as [Hi1 Hi2].
    apply optional_texts_field in Hp as [Hp1 Hp2].
    intros Hcmd.
    assert (command = {| u_title := t; u_ingredients := i; u_preparation_steps := p |}
            ∧ (is_Some t ∨ is_Some i ∨ is_Some p)) as [-> Hsome].
    { destruct t, i, p; simplify_eq; split; eauto. }
    cbn [u_title u_ingredients u_preparation_steps]. split_and!; [done| |done..].
    by exists members.
Qed.

Lemma asInteger_iff n z : asInteger n = Some z ↔ isInteger n z.
Proof.
  split.
  - destruct n as [| |q]; try done. intros Hq%asInteger_Finite. by exists q.
  - intros (q & -> & Hq). simpl.
    assert (Qfloor q = z) as -> by (by rewrite <- Hq, Qfloor_Z).
    by apply Qeq_bool_iff in Hq as ->.
Qed.

Lemma parsePage_iff raw p :
  parsePage raw = Some p ↔
  (raw = None ∧ p = 1%Z) ∨ (∃ n, raw = Some n ∧ isInteger n p ∧ (1 ≤ p)%Z).
Proof.
  unfold parsePage. destruct raw as [n|].
  - split.
    + destruct (asInteger n) as [z|] eqn:Hz; [|done].
      destruct (Z.ltb_spec 0 z); [|done]. intros [= <-]. right.
      exists n. split_and!; [done| |lia]. by apply asInteger_iff.
    + intros [[? _]|(n' & [= <-] & Hz%asInteger_iff & Hp)]; [done|].
      rewrite Hz. by destruct (Z.ltb_spec 0 p); [|lia].
  - split; [intros [= <-]; by left|]. by intros [[_ ->]|(? & ? & _)].
Qed.

Lemma parseLimit_iff raw l :
  parseLimit raw = Some l ↔
  (raw = None ∧ l = 20%Z) ∨ (∃ n, raw = Some n ∧ isInteger n l ∧ (1 ≤ l ≤ 100)%Z).
Proof.
  unfold parseLimit. destruct raw as [n|].
  - split.
    + destruct (asInteger n) as [z|] eqn:Hz; [|done].
      destruct (Z.ltb_spec 0 z), (Z.leb_spec z 100); try done. intros [= <-]. right.
      exists n. split_and!; [done| |lia..]. by apply asInteger_iff.
    + intros [[? _]|(n' & [= <-] & Hz%asInteger_iff & Hp)]; [done|].
      rewrite Hz. by destruct (Z.ltb_spec 0 l), (Z.leb_spec l 100); try lia.
  - split; [intros [= <-]; by left|]. by intros [[_ ->]|(? & ? & _)].
Qed.

Lemma parseOrder_iff raw o :
  parseOrder raw = Some o ↔
  (raw = None ∧ o = desc) ∨ (raw = Some "asc" ∧ o = asc) ∨ (raw = Some "desc" ∧ o = desc).
Proof.
  unfold parseOrder. destruct raw as [s|].
  - destruct (decide (s = "asc")) as [->|Hfirst].
    { split; [intros [= <-]; auto|].
      intros [[H _]|[[_ ->]|[H _]]]; [discriminate H|done|discriminate H]. }
    destruct (decide (s = "desc")) as [->|Hsecond].
    { split; [intros [= <-]; auto|].
      intros [[H _]|[[H _]|[_ ->]]]; [discriminate H|discriminate H|done]. }
    split; [done|].
    intros [[H _]|[[H _]|[H _]]];
      [discriminate H|injection H as ->; by destruct Hfirst
      |injection H as ->; by destruct Hsecond].
  - split; [intros [= <-]; auto|].
    intros [[_ ->]|[[H _]|[H _]]]; [done|discriminate H..].
Qed.

Lemma parseSource_iff raw src :
  parseSource raw = Some src ↔
  (raw = None ∧ src = None) ∨ (raw = Some "ai" ∧ src = Some ai) ∨
  (raw = Some "manual" ∧ src = Some manual).
Proof.
  unfold parseSource. destruct raw as [s|].
  - destruct (decide (s = "ai")) as [->|Hfirst].
    { split; [intros [= <-]; auto|].
      intros [[H _]|[[_ ->]|[H _]]]; [discriminate H|done|discriminate H]. }
    destruct (decide (s = "manual")) as [->|Hsecond].
    { split; [intros [= <-]; auto|].
      intros [[H _]|[[H _]|[_ ->]]]; [discriminate H|discriminate H|done]. }
    split; [done|].
    intros [[H _]|[[H _]|[H _]]];
      [discriminate H|injection H as ->; by destruct Hfirst
      |injection H as ->; by destruct Hsecond].
  - split; [intros [= <-]; auto|].
    intros [[_ ->]|[[H _]|[H _]]]; [done|discriminate H..].
Qed.

(** X16.  [recipeQuerySchema] accepts a query exactly when [page] is
    absent or a positive integer, [limit] is absent or an integer from 1
    to 100, [order] is absent, asc or desc, and [source] is absent, ai or
    manual (so it rejects not-a-number, infinite, fractional, zero and
    negative numbers); the data are these values, 1, 20, [created_at]
    and desc standing in for absent ones. *)
Theorem recipeQuerySchema_accepts raw data :
  recipeQuerySchema raw = Success data ↔
  ∃ p l o src,
    data = {| page := Some p; limit := Some l;
              sort := Some (default "created_at" (raw_sort raw));
              order := Some o; source := src |} ∧
    ((raw_page raw = None ∧ p = 1%Z) ∨
     (∃ n, raw_page raw = Some n ∧ isInteger n p ∧ (1 ≤ p)%Z)) ∧
    ((raw_limit raw = None ∧ l = 20%Z) ∨
     (∃ n, raw_limit raw = Some n ∧ isInteger n l ∧ (1 ≤ l ≤ 100)%Z)) ∧
    ((raw_order raw = None ∧ o = desc) ∨ (raw_order raw = Some "asc" ∧ o = asc) ∨
     (raw_order raw = Some "desc" ∧ o = desc)) ∧
    ((raw_source raw = None ∧ src = None) ∨ (raw_source raw = Some "ai" ∧ src = Some ai) ∨
     (raw_source raw = Some "manual" ∧ src = Some manual)).
Proof.
  split.
  - intros (p & l & o & src & Hp & Hl & Ho & Hsrc & ->)%schema_Success.
    exists p, l, o, src. split; [done|].
    by rewrite <- parsePage_iff, <- parseLimit_iff, <- parseOrder_iff, <- parseSource_iff.
  - intros (p & l & o & src & -> & Hp%parsePage_iff & Hl%parseLimit_iff
            & Ho%parseOrder_iff & Hsrc%parseSource_iff).
    unfold recipeQuerySchema, parseSort. by rewrite Hp, Hl, Ho, Hsrc.
Qed.

Lemma append_length a b :
  String.length (a +:+ b) = (String.length a + String.length b)%nat.
Proof. induction a as [|c a IH]; [done|]. rewrite app_String. simpl. by rewrite IH. Qed.

Lemma endsClean_append a b : b ≠ "" → endsClean b = true → endsClean (a +:+ b) = true.
Proof.
  intros Hb Hclean. induction a as [|c a IH]; [done|].
  rewrite app_String. cbn [endsClean]. destruct (a +:+ b) eqn:Hab; [|done].
  destruct a; [by destruct b|done].
Qed.

Lemma default_title_acceptable x :
  (String.length x ≤ 100)%nat →
  cleanText ("Delicious " +:+ x +:+ " Recipe") ∧
  (String.length ("Delicious " +:+ x +:+ " Recipe") ≤ 255)%nat.
Proof.
  intros Hx. split; [split|].
  - unfold trim. rewrite trimStart_id by reflexivity.
    apply trimEnd_id. apply (endsClean_append "Delicious "); [by destruct x|].
    by apply endsClean_append.
  - discriminate.
  - rewrite !append_length. simpl. lia.
Qed.

Lemma first_or_undefined_length raw :
  (String.length (first_or_undefined (sanitizeIngredients raw)) ≤ 100)%nat.
Proof.
  destruct raw as [|r raw]; simpl; [lia|]. apply sanitizeIngredient_length.
Qed.

Lemma cleanText_compute t : trim t = t → isEmpty t = false → cleanText t.
Proof. intros Ht He. split; [done|]. by apply isEmpty_false. Qed.

Lemma mock_lists_acceptable :
  Forall cleanText (g_ingredients MOCK_default) ∧
  Forall cleanText (g_preparation_steps MOCK_default) ∧
  acceptable (draftCommand MOCK_chicken_rice) ∧
  acceptable (draftCommand MOCK_pasta).
Proof.
  unfold acceptable.
  split_and!; try discriminate; try (simpl; lia);
    repeat (first [apply Forall_nil_2 | apply Forall_cons_2]);
    apply cleanText_compute; reflexivity.
Qed.

(** X15.  Whatever list the generate flow sanitizes, the draft the
    development adapter answers for it can be saved as it is: sent with
    source ai to the create schema, it is accepted and comes back
    unchanged. *)
Theorem generated_draft_savable raw :
  let draft := generateRecipe (sanitizeIngredients raw) in
  acceptable (draftCommand draft) ∧
  createRecipeSchema (createBody (draftCommand draft)) = Valid (draftCommand draft).
Proof.
  intros draft.
  assert (Hok : acceptable (draftCommand draft)).
  { destruct mock_lists_acceptable as (Hi & Hp & Hchicken & Hpasta).
    unfold draft, generateRecipe.
    destruct (_ && _); [done|]. destruct (includes _ "pasta"); [done|].
    destruct (default_title_acceptable _ (first_or_undefined_length raw)) as [Ht Hlen].
    unfold acceptable, draftCommand. cbn [c_title c_ingredients c_preparation_steps
      g_title g_ingredients g_preparation_steps]. split_and!; done. }
  split; [done|]. by apply createBody_accepted.
Qed.

End SchemaFacts.

Section SchemaInstances.
Import JsString AIService RecipeService Validation Schemas.

Lemma generateRecipeSchema_accepts_witness :
  generateRecipeSchema threeIngredients = Valid ["chicken"; "rice"; "<b>peas</b>"].
Proof.
  apply generateRecipeSchema_accepts. eexists _, _.
  split; [reflexivity|]. split; [reflexivity|]. split; [simpl; lia|].
  repeat constructor; eexists; (split; [reflexivity|split; [reflexivity|discriminate]]).
Defined.

Lemma toast_acceptable : acceptable toast.
Proof.
  unfold acceptable. split_and!; try discriminate; try (simpl; lia);
    repeat (first [apply Forall_nil_2 | apply Forall_cons_2]);
    apply cleanText_compute; reflexivity.
Defined.

Lemma createRecipeSchema_accepts_witness :
  createRecipeSchema
    (JObject [("title", JString "  Toast ");
              ("ingredients", JArray [JString "2 slices of bread"]);
              ("preparation_steps", JArray [JString "Toast the bread"]);
              ("source", JString "manual")]) = Valid toast.
Proof.
  apply createRecipeSchema_accepts.
  eexists _, "  Toast ", [JString "2 slices of bread"], [JString "Toast the bread"].
  split_and!; try reflexivity; try (simpl; lia);
    repeat constructor; eexists; (split; [reflexivity|split; [reflexivity|discriminate]]).
Defined.

Lemma createRecipeSchema_roundtrip_witness :
  createRecipeSchema (createBody toast) = Valid toast.
Proof.
  destruct createRecipeSchema_roundtrip as (_ & Hback & _).
  apply Hback, toast_acceptable.
Defined.

Lemma updateRecipeSchema_requires_field_witness :
  updateRecipeSchema (JObject [("name", JString "Toast")]) = Invalid [""] ∧
  (is_Some (u_title retitle) ∨ is_Some (u_ingredients retitle) ∨
   is_Some (u_preparation_steps retitle)).
Proof.
  destruct updateRecipeSchema_requires_field as [Hnone Hsome]. split.
  - apply Hnone; reflexivity.
  - apply (Hsome (JObject [("title", JString " Buttered toast ")]) retitle).
    reflexivity.
Defined.

Lemma recipeQuerySchema_accepts_witness :
  recipeQuerySchema page5 =
  Success {| page := Some 5%Z; limit := Some 20%Z; sort := Some "created_at";
             order := Some desc; source := Some ai |}.
Proof.
  apply recipeQuerySchema_accepts. exists 5%Z, 20%Z, desc, (Some ai).
  split_and!; [reflexivity| |by left|by left|by right; left].
  right. exists (Finite (5 # 1)%Q). split_and!; [reflexivity| |lia].
  exists (5 # 1)%Q. split; reflexivity.
Defined.

End SchemaInstances.

(** ** The route handlers *)

Section RouteFacts.
Import JsString AIService RecipeService Validation Schemas Routes.
Local Open Scope Z_scope.

Variable DEFAULT_USER_ID : string.
Variable uuid : string → bool.

Lemma updateRecipe_None id userId command now st st' :
  updateRecipe id userId command now st = (None, st') → st' = st.
Proof.
  unfold updateRecipe. destruct (list_find _ _) as [[? ?]|]; [done|]. by intros [= <-].
Qed.

Lemma deleteRecipe_false id userId st st' :
  deleteRecipe id userId st = (false, st') → st' = st.
Proof.
  unfold deleteRecipe. destruct (list_find _ _) as [[? ?]|]; [done|]. by intros [= <-].
Qed.

(** X21.  [PATCH] answers 200, 400 or 404, [DELETE] answers 200, 400 or
    404, [POST] answers 201 or 400, and a request that is not answered
    with 200 (201 for [POST]) leaves the collection and the counter as
    they were: a malformed identifier, an unreadable or falsy body, a
    body the schema rejects and an unknown recipe change nothing. *)
Theorem rejected_requests_leave_store st :
  (∀ id body now,
     let answer := PATCH_recipe DEFAULT_USER_ID uuid id body now st in
     (status answer.1 = 200 ∨ status answer.1 = 400 ∨ status answer.1 = 404) ∧
     (status answer.1 ≠ 200 → answer.2 = st)) ∧
  (∀ id,
     let answer := DELETE_recipe DEFAULT_USER_ID uuid id st in
     (status answer.1 = 200 ∨ status answer.1 = 400 ∨ status answer.1 = 404) ∧
     (status answer.1 ≠ 200 → answer.2 = st)) ∧
  (∀ body createdNow updatedNow,
     let answer := POST_recipes DEFAULT_USER_ID body createdNow updatedNow st in
     (status answer.1 = 201 ∨ status answer.1 = 400) ∧
     (status answer.1 ≠ 201 → answer.2 = st)).
Proof.
  split_and!.
  - intros id body now. unfold PATCH_recipe.
    destruct (uuid id); [|simpl; auto].
    destruct (truthy _); [|simpl; auto].
    destruct (updateRecipeSchema _) as [command|issues]; [|simpl; auto].
    destruct (updateRecipe _ _ _ _ _) as [[updated|] st'] eqn:Hupdate; simpl.
    + split; [auto|done].
    + apply updateRecipe_None in Hupdate as ->. auto.
  - intros id. unfold DELETE_recipe. destruct (uuid id); [|simpl; auto].
    destruct (deleteRecipe _ _ _) as [[|] st'] eqn:Hdelete; simpl.
    + split; [auto|done].
    + apply deleteRecipe_false in Hdelete as ->. auto.
  - intros body createdNow updatedNow. unfold POST_recipes.
    destruct (truthy _); [|simpl; auto].
    destruct (createRecipeSchema _) as [command|issues]; simpl; [|auto].
    split; [auto|done].
Qed.

Lemma pretty_N_go_length x s : (String.length s ≤ String.length (pretty_N_go x s))%nat.
Proof.
  revert s. induction (N.lt_wf_0 x) as [x _ IH]; intros s.
  assert (x = 0 ∨ 0 < x)%N as [->|Hx] by lia; [by rewrite pretty_N_go_0|].
  rewrite pretty_N_go_step by done.
  etrans; [|apply IH; by apply N.div_lt]. simpl. lia.
Qed.

Lemma pretty_two_digits (k : nat) : (10 ≤ k)%nat → (2 ≤ String.length (pretty k))%nat.
Proof.
  intros Hk. unfold pretty, pretty_nat, pretty, pretty_N.
  rewrite decide_False by lia.
  rewrite 2!pretty_N_go_step by (try apply N.div_str_pos_iff; lia).
  etrans; [|apply pretty_N_go_length]. simpl. lia.
Qed.

Lemma mockId_long (k : nat) : (10 ≤ k)%nat → (37 ≤ String.length (mockId k))%nat.
Proof.
  intros Hk%pretty_two_digits. unfold mockId. rewrite append_length. simpl. lia.
Qed.

(** X22.  Provided the identifier check only passes strings of 36 code
    units (every UUID has that many): a recipe saved once the counter
    has reached 10 is stored, under an identifier of 37 code units or
    more, and [GET], [PATCH] and [DELETE] by that identifier answer 400
    and change nothing, so the recipe can no longer be read, changed or
    removed by identifier. *)
Theorem saved_beyond_nine_unreachable st command owner createdNow updatedNow :
  (∀ s, uuid s = true → String.length s = 36%nat) →
  (10 ≤ mockRecipeCounter st)%nat →
  let created := (createRecipe command owner createdNow updatedNow st).1 in
  let st' := (createRecipe command owner createdNow updatedNow st).2 in
  let invalid := createErrorResponse 400 "Validation failed"
                   "Invalid recipe ID format" None in
  created ∈ MOCK_RECIPES st' ∧
  (37 ≤ String.length (r_id created))%nat ∧
  GET_recipe DEFAULT_USER_ID uuid (r_id created) st' = invalid ∧
  (∀ body now,
     PATCH_recipe DEFAULT_USER_ID uuid (r_id created) body now st' = (invalid, st')) ∧
  DELETE_recipe DEFAULT_USER_ID uuid (r_id created) st' = (invalid, st').
Proof.
  intros Huuid Hcounter created st' invalid.
  pose proof (mockId_long _ Hcounter) as Hlong.
  assert (Hno : uuid (r_id created) = false).
  { destruct (uuid (r_id created)) eqn:Hyes; [|done].
    apply Huuid in Hyes. cbn [created createRecipe fst r_id] in Hyes. lia. }
  split_and!.
  - unfold st', created. cbn [createRecipe fst snd MOCK_RECIPES].
    apply elem_of_app. right. apply list_elem_of_here.
  - exact Hlong.
  - unfold GET_recipe. by rewrite Hno.
  - intros body now. unfold PATCH_recipe. by rewrite Hno.
  - unfold DELETE_recipe. by rewrite Hno.
Qed.

(** X23.  The generate endpoint answers 200, 400 or 503.  With 400 it
    has sent nothing to the generation service.  Whatever it sends is
    one list, of at least three ingredients, each of at most 100 code
    units, all of them allowed by the sanitizer. *)
Theorem generate_endpoint_dispatch env body :
  let answer := POST_generate DEFAULT_USER_ID env body in
  let sent := POST_generate_dispatched DEFAULT_USER_ID env body in
  (status answer = 200 ∨ status answer = 400 ∨ status answer = 503) ∧
  (status answer = 400 → sent = []) ∧
  (∀ request,
     request ∈ sent →
     sent = [request] ∧ (3 ≤ length request)%nat ∧
     Forall (λ s, (String.length s ≤ 100)%nat ∧ allChars allowed s = true) request).
Proof.
  unfold POST_generate, POST_generate_dispatched, POST_generate_flow.
  destruct (truthy _).
  2:{ simpl. split_and!; auto. by intros ? ?%elem_of_nil. }
  destruct (generateRecipeSchema _) as [ingredients|issues] eqn:Hschema.
  2:{ simpl. split_and!; auto. by intros ? ?%elem_of_nil. }
  pose proof (dispatched_generate env ingredients DEFAULT_USER_ID) as [Hsent _].
  rewrite Hsent. split_and!.
  - destruct (run _ _); simpl; auto.
  - destruct (run _ _); simpl; done.
  - intros request ->%list_elem_of_singleton. split; [done|].
    apply generateRecipeSchema_Valid in Hschema
      as (members & items & _ & _ & Hlen & Hall).
    apply Forall2_length in Hall. split.
    + unfold sanitizeIngredients. rewrite length_fmap. lia.
    + apply Forall_forall.
      intros s (x & -> & _)%list_elem_of_fmap. split.
      * apply sanitizeIngredient_length.
      * apply removeUnless_allChars.
Qed.

(** X24.  The values the list handler puts in for an absent [page],
    [limit], [sort] or [order] are those the schema defaults to: the
    handler answers 400 with the issues exactly when the schema rejects
    the query as sent, and otherwise 200 with the listing for the data
    the schema makes of the query as sent. *)
Theorem list_handler_defaults localeCompare raw st :
  recipeQuerySchema (queryParams raw) = recipeQuerySchema raw ∧
  GET_recipes DEFAULT_USER_ID localeCompare raw st =
    match listRecipes localeCompare DEFAULT_USER_ID raw st with
    | inl issues =>
        createErrorResponse 400 "Validation failed" "Invalid query parameters"
          (Some (DetailFields issues))
    | inr listed => {| status := 200; payload := ListPayload listed |}
    end.
Proof.
  assert (Hsame : recipeQuerySchema (queryParams raw) = recipeQuerySchema raw).
  { destruct raw as [[p|] [l|] [s|] [o|] src]; reflexivity. }
  split; [done|]. unfold GET_recipes, listRecipes. rewrite Hsame.
  by destruct (recipeQuerySchema raw).
Qed.

End RouteFacts.

Section RouteInstances.
Import JsString AIService RecipeService Validation Schemas Routes.
Local Open Scope Z_scope.

Lemma hexUuid_length s : hexUuid s = true → String.length s = 36%nat.
Proof.
  unfold hexUuid. intros [Hlen _]%andb_true_iff. by apply Nat.eqb_eq.
Defined.

Lemma rejected_requests_leave_store_witness :
  (PATCH_recipe "default-user-id" hexUuid "550e8400-e29b-41d4-a716-446655440001"
     (Some (JObject [])) "2025-01-02T08:30:00.000Z" (initialStore "default-user-id")).2
  = initialStore "default-user-id".
Proof.
  destruct (rejected_requests_leave_store "default-user-id" hexUuid
              (initialStore "default-user-id")) as (Hpatch & _ & _).
  apply (Hpatch "550e8400-e29b-41d4-a716-446655440001" (Some (JObject []))
           "2025-01-02T08:30:00.000Z").
  vm_compute. discriminate.
Defined.

Lemma saved_beyond_nine_unreachable_witness :
  DELETE_recipe "default-user-id" hexUuid
    (r_id (createRecipe toast "default-user-id" "2025-01-01T00:00:00.000Z"
             "2025-01-01T00:00:00.000Z" storeAfterSixSaves).1)
    (createRecipe toast "default-user-id" "2025-01-01T00:00:00.000Z"
       "2025-01-01T00:00:00.000Z" storeAfterSixSaves).2
  = (createErrorResponse 400 "Validation failed" "Invalid recipe ID format" None,
     (createRecipe toast "default-user-id" "2025-01-01T00:00:00.000Z"
        "2025-01-01T00:00:00.000Z" storeAfterSixSaves).2).
Proof.
  apply (saved_beyond_nine_unreachable "default-user-id" hexUuid storeAfterSixSaves
           toast "default-user-id" "2025-01-01T00:00:00.000Z" "2025-01-01T00:00:00.000Z"
           hexUuid_length).
  vm_compute. lia.
Defined.

Lemma generate_endpoint_dispatch_witness :
  POST_generate_dispatched "default-user-id" (mockCollaborators None)
    (Some threeIngredients) = [["chicken"; "rice"; "bpeasb"]] ∧
  (3 ≤ length ["chicken"; "rice"; "bpeasb"])%nat ∧
  Forall (λ s, (String.length s ≤ 100)%nat ∧ allChars allowed s = true)
    ["chicken"; "rice"; "bpeasb"].
Proof.
  apply (generate_endpoint_dispatch "default-user-id" (mockCollaborators None)
           (Some threeIngredients)).
  vm_compute. apply list_elem_of_here.
Defined.

End RouteInstances.
